(** * label_manualv1.py: the DICOMLabeler annotation session

    A shallow embedding of [DICOMLabeler] (src/label_manualv1.py): the
    polygon/mask codec ([save_current_slice], [load_slice_data]) and the
    event handlers that drive it ([on_click], [on_key_press],
    [initiate_finish_polygon], [prev_slice], [next_slice], [save_labels]).

    The session code never looks inside a coordinate: points are built from
    [event.xdata]/[event.ydata] or copied out of a traced contour, and are
    only handed on to scikit-image.  Coordinates are therefore an abstract
    type, and the three scikit-image routines the class calls are an
    interface ([Skimage]) the development is parametric in. *)

From Stdlib Require Import ZArith QArith Ascii String Sorted Lia.
From stdpp Require Import base list sorting pretty.

Local Open Scope string_scope.
Local Open Scope list_scope.
Local Open Scope nat_scope.

(** ** Arrays *)

(** A 2-D [np.int32] label array, row major; a 2-D boolean array as
    produced by [label_array == label].  The values written are labels
    accepted against [bone_colors] or read back from the label volume, so
    they are within [int32] and no wrap-around is involved. *)
Abbreviation LabelMask := (list (list Z)) (only parsing).
Abbreviation BoolMask := (list (list bool)) (only parsing).

(** [np.zeros((H, W), dtype=np.int32)] *)
Definition np_zeros (shape : nat * nat) : LabelMask :=
  replicate (fst shape) (replicate (snd shape) 0%Z).

(** [a[r, c]] for an index inside the array, [None] outside. *)
Definition get_pixel (a : LabelMask) (r c : nat) : option Z :=
  a !! r ≫= (.!! c).

(** [a[r, c] = v]. *)
Definition set_pixel (a : LabelMask) (r c : nat) (v : Z) : LabelMask :=
  alter (<[c := v]>) r a.

(** [a[rr, cc] = v] with two index arrays: the positions [(rr[k], cc[k])]
    are written one after the other.  The index arrays come from
    [skimage.draw.polygon] called with the array's own shape, which clips
    them to the array, so numpy's IndexError for a position outside the
    array does not arise; [set_pixel] leaves the array as it is there. *)
Definition assign_indexed (a : LabelMask) (rr cc : list nat) (v : Z) : LabelMask :=
  foldl (fun acc rc => set_pixel acc rc.1 rc.2 v) a (zip rr cc).

(** [a == label] *)
Definition mask_eq (a : LabelMask) (label : Z) : BoolMask :=
  map (map (fun v => Z.eqb v label)) a.

(** [np.unique(a)]: the sorted distinct values of the flattened array. *)
Fixpoint insert_unique (v : Z) (l : list Z) : list Z :=
  match l with
  | [] => [v]
  | x :: l' =>
      if Z.ltb v x then v :: l
      else if Z.eqb v x then l
      else x :: insert_unique v l'
  end.

Definition np_unique (a : LabelMask) : list Z :=
  foldr insert_unique [] (concat a).

(** ** The scikit-image interface *)

Class Skimage (coord : Type) := {
  (** [skimage.draw.polygon(r, c, shape)]: the index arrays [(rr, cc)] of
      the pixels inside the polygon with vertex rows [r] and columns [c],
      clipped to [shape]. *)
  polygon : list coord → list coord → nat * nat → list nat * list nat;
  (** [skimage.measure.find_contours(image, level)]: the iso-valued
      contours of [image], each an array of [(row, column)] points. *)
  find_contours : BoolMask → Q → list (list (coord * coord));
  (** [skimage.measure.approximate_polygon(coords, tolerance)] *)
  approximate_polygon : list (coord * coord) → Z → list (coord * coord)
}.

(** ** What a handler does besides changing the session *)

(** The metadata dictionary written by [save_labels]. *)
Record Metadata := mkMetadata {
  md_bone_colors : list (Z * string);
  md_bone_names : list (Z * string)
}.

Inductive effect :=
| Print (msg : string)                          (* print(msg) *)
| CanvasDraw                                    (* self.fig.canvas.draw() *)
| UpdateDisplay                                 (* self.update_display() *)
| NpSave (file : string) (arr : list LabelMask) (* np.save(file, arr) *)
| JsonDump (file : string) (md : Metadata).     (* json.dump(md, open(file, 'w')) *)

Section Labeler.
Context {coord : Type} {SK : Skimage coord}.

(** A point is the tuple [(x, y)]. *)
Definition Point : Type := coord * coord.

(** The fields of [DICOMLabeler] that the handlers read or write.  Of
    [data_zyx] only the shape [(S, (H, W))] is kept: the intensities are
    shown by [update_display] and used nowhere else.  [current_slice] is a
    [nat]: it starts at 0 and [prev_slice] decrements it only when it is
    positive. *)
Record DICOMLabeler := mkLabeler {
  data_shape : nat * (nat * nat);
  slice_labels : list LabelMask;
  current_slice : nat;
  polygons : list (list Point * Z);
  current_polygon : list Point;
  bone_colors : list (Z * (string * string));
  waiting_for_label : bool
}.

Definition set_slice_labels (v : list LabelMask) (s : DICOMLabeler) :=
  mkLabeler (data_shape s) v (current_slice s) (polygons s)
            (current_polygon s) (bone_colors s) (waiting_for_label s).
Definition set_current_slice (v : nat) (s : DICOMLabeler) :=
  mkLabeler (data_shape s) (slice_labels s) v (polygons s)
            (current_polygon s) (bone_colors s) (waiting_for_label s).
Definition set_polygons (v : list (list Point * Z)) (s : DICOMLabeler) :=
  mkLabeler (data_shape s) (slice_labels s) (current_slice s) v
            (current_polygon s) (bone_colors s) (waiting_for_label s).
Definition set_current_polygon (v : list Point) (s : DICOMLabeler) :=
  mkLabeler (data_shape s) (slice_labels s) (current_slice s) (polygons s)
            v (bone_colors s) (waiting_for_label s).
Definition set_waiting_for_label (v : bool) (s : DICOMLabeler) :=
  mkLabeler (data_shape s) (slice_labels s) (current_slice s) (polygons s)
            (current_polygon s) (bone_colors s) v.

(** The registry installed by [__init__]. *)
Definition default_bone_colors : list (Z * (string * string)) :=
  [ (1%Z, ("red", "Femur")); (2%Z, ("blue", "Tibia"));
    (3%Z, ("green", "Fibula")); (4%Z, ("yellow", "Patella"));
    (5%Z, ("purple", "Other Bone 1")); (6%Z, ("orange", "Other Bone 2")) ].

(** [label in self.bone_colors] *)
Definition in_bone_colors (label : Z) (s : DICOMLabeler) : bool :=
  existsb (fun kv => Z.eqb kv.1 label) (bone_colors s).

(** [__init__], given the shape of the loaded series. *)
Definition init (shape : nat * (nat * nat)) : DICOMLabeler :=
  mkLabeler shape (replicate shape.1 (np_zeros shape.2)) 0 [] []
            default_bone_colors false.

(** ** Handlers as state transformers that log their effects *)

Definition M (A : Type) : Type := DICOMLabeler → A * DICOMLabeler * list effect.

#[export] Instance M_ret : MRet M := fun A (a : A) s => (a, s, []).
#[export] Instance M_bind : MBind M := fun A B (k : A → M B) (m : M A) s =>
  let '(a, s1, e1) := m s in
  let '(b, s2, e2) := k a s1 in
  (b, s2, e1 ++ e2).

Definition get : M DICOMLabeler := fun s => (s, s, []).
Definition modify (f : DICOMLabeler → DICOMLabeler) : M unit :=
  fun s => (tt, f s, []).
Definition emit (e : effect) : M unit := fun s => (tt, s, [e]).
Definition print (msg : string) : M unit := emit (Print msg).

(** [for x in l: body(x)] *)
Fixpoint for_each {A} (l : list A) (body : A → M unit) : M unit :=
  match l with
  | [] => mret tt
  | x :: l' => body x;; for_each l' body
  end.

(** The session and the effect log a handler leaves behind. *)
Definition exec {A} (m : M A) (s : DICOMLabeler) : DICOMLabeler := (m s).1.2.
Definition effects {A} (m : M A) (s : DICOMLabeler) : list effect := (m s).2.
Definition result {A} (m : M A) (s : DICOMLabeler) : A := (m s).1.1.

(** ** The codec *)

(** The loop of [save_current_slice] (lines 166-170): every polygon is
    rasterised with rows [poly[:, 1]] and columns [poly[:, 0]] and its
    pixels are overwritten with its label, in list order.  ([poly[:, 1]]
    needs a non-empty point list; a polygon enters the list with at least 3
    drawn points or as a traced contour.) *)
Definition encode_polygons (polys : list (list Point * Z)) (shape : nat * nat)
  : LabelMask :=
  foldl (fun label_array pl =>
           let '(rr, cc) := polygon (map snd pl.1) (map fst pl.1) shape in
           assign_indexed label_array rr cc pl.2)
        (np_zeros shape) polys.

(** The pixels [(rr[k], cc[k])] that the loop writes for one polygon. *)
Definition raster (poly_points : list Point) (shape : nat * nat) : list (nat * nat) :=
  let '(rr, cc) := polygon (map snd poly_points) (map fst poly_points) shape in
  zip rr cc.

(** The label of the last polygon of [polys] whose pixels include [(r, c)]. *)
Definition top_label (polys : list (list Point * Z)) (shape : nat * nat)
    (r c : nat) : option Z :=
  snd <$> last (filter (fun pl => (r, c) ∈ raster pl.1 shape) polys).

(** Labelled polygons ordered by class code. *)
Definition by_label (a b : list Point * Z) : Prop := (a.2 ≤ b.2)%Z.

(** Lines 183-187: a contour of more than 100 points is approximated, and
    every point [(row, column)] becomes [(pt[1], pt[0])]. *)
Definition decode_contour (contour : list (coord * coord)) : list Point :=
  let contour :=
    if 100 <? length contour then approximate_polygon contour 1%Z else contour in
  map (fun pt => (pt.2, pt.1)) contour.

(** The loop of [load_slice_data] (lines 177-188). *)
Definition decode_mask (label_array : LabelMask) : list (list Point * Z) :=
  flat_map (fun label =>
              if Z.eqb label 0 then []
              else map (fun contour => (decode_contour contour, label))
                       (find_contours (mask_eq label_array label) (1 # 2)%Q))
           (np_unique label_array).

Definition save_current_slice : M unit :=
  s ← get;
  let label_array := encode_polygons (polygons s) (data_shape s).2 in
  modify (set_slice_labels (<[current_slice s := label_array]> (slice_labels s))).

Definition load_slice_data : M unit :=
  modify (set_polygons []);;
  s ← get;
  let label_array := slice_labels s !!! current_slice s in
  modify (set_polygons (decode_mask label_array)).

(** ** The event handlers *)

(** [update_display] draws and changes no field. *)
Definition update_display : M unit := emit UpdateDisplay.

(** [initiate_finish_polygon] up to the dialog (lines 122-141); the result
    tells whether the dialog is opened. *)
Definition finish_polygon_open : M bool :=
  s ← get;
  if waiting_for_label s then mret false
  else if length (current_polygon s) <? 3 then
    print "Need at least 3 points to form a polygon.";; mret false
  else
    modify (set_waiting_for_label true);;
    emit CanvasDraw;;
    print (String "010"%char "Available bone labels:");;
    for_each (bone_colors s) (fun kv =>
      print (pretty kv.1 +:+ ": " +:+ kv.2.2 +:+ " (" +:+ kv.2.1 +:+ ")"));;
    mret true.

(** [initiate_finish_polygon] from the dialog's answer on (lines 143-149):
    [label] is what [askinteger] returned, [None] when it was cancelled.
    The fields are read when the dialog returns. *)
Definition finish_polygon_close (label : option Z) : M unit :=
  s ← get;
  (match label with
   | Some l =>
       if in_bone_colors l s then
         modify (set_polygons (polygons s ++ [(current_polygon s, l)]));;
         modify (set_current_polygon [])
       else mret tt
   | None => mret tt
   end);;
  modify (set_waiting_for_label false);;
  update_display.

(** [initiate_finish_polygon] when nothing happens while the dialog is up. *)
Definition initiate_finish_polygon (label : option Z) : M unit :=
  opened ← finish_polygon_open;
  if opened : bool then finish_polygon_close label else mret tt.

(** [on_click]: [inaxes] is [event.inaxes == self.ax]; [label] answers the
    dialog if the click opens it. *)
Definition on_click (inaxes : bool) (button : Z) (xdata ydata : coord)
    (label : option Z) : M unit :=
  s ← get;
  if waiting_for_label s then mret tt
  else
    print ("Button pressed: " +:+ pretty button);;
    if negb inaxes then mret tt
    else if Z.eqb button 1 then
      modify (fun s => set_current_polygon (current_polygon s ++ [(xdata, ydata)]) s);;
      update_display
    else initiate_finish_polygon label.

Definition on_key_press (key : string) (label : option Z) : M unit :=
  s ← get;
  if waiting_for_label s then mret tt
  else if String.eqb key "delete" || String.eqb key "backspace" then
    match current_polygon s with
    | [] => mret tt
    | _ => modify (set_current_polygon (removelast (current_polygon s)));;
           update_display
    end
  else if String.eqb key "c" then
    modify (set_current_polygon []);; update_display
  else if String.eqb key "enter" then initiate_finish_polygon label
  else mret tt.

Definition prev_slice : M unit :=
  s ← get;
  if 0 <? current_slice s then
    save_current_slice;;
    modify (fun s => set_current_slice (current_slice s - 1) s);;
    load_slice_data;;
    update_display
  else mret tt.

Definition next_slice : M unit :=
  s ← get;
  if current_slice s <? (data_shape s).1 - 1 then
    save_current_slice;;
    modify (fun s => set_current_slice (current_slice s + 1) s);;
    load_slice_data;;
    update_display
  else mret tt.

Definition save_labels : M unit :=
  save_current_slice;;
  s ← get;
  emit (NpSave "bone_labels.npy" (slice_labels s));;
  let metadata :=
    mkMetadata (map (fun kv => (kv.1, kv.2.1)) (bone_colors s))
               (map (fun kv => (kv.1, kv.2.2)) (bone_colors s)) in
  emit (JsonDump "label_metadata.json" metadata);;
  print "Labels saved to bone_labels.npy and label_metadata.json".

(** The label volume has one array per slice and the slice index is inside
    it; [__init__] establishes this for a series of at least one slice. *)
Definition well_formed (s : DICOMLabeler) : Prop :=
  length (slice_labels s) = (data_shape s).1 ∧ current_slice s < (data_shape s).1.

(** ** The session states of the specification, read off the fields *)

Inductive session_state := Browsing | Drawing | AwaitingLabel.

Definition state_of (s : DICOMLabeler) : session_state :=
  if waiting_for_label s then AwaitingLabel
  else match current_polygon s with [] => Browsing | _ => Drawing end.

End Labeler.

Arguments DICOMLabeler : clear implicits.
Arguments M : clear implicits.

(** ** The wiring of [setup_ui] and runs of events *)

(** The callbacks [setup_ui] connects (lines 58-65): the four buttons, the
    mouse press and the key press.  An event that can open the dialog
    carries the answer the dialog gets. *)
Inductive event (coord : Type) :=
| ButtonPress (inaxes : bool) (button : Z) (xdata ydata : coord) (label : option Z)
| KeyPress (key : string) (label : option Z)
| FinishButton (label : option Z)
| PrevButton
| NextButton
| SaveButton.

Arguments ButtonPress {coord}.
Arguments KeyPress {coord}.
Arguments FinishButton {coord}.
Arguments PrevButton {coord}.
Arguments NextButton {coord}.
Arguments SaveButton {coord}.

Section Events.
Context {coord : Type} {SK : Skimage coord}.

Definition handle (e : event coord) : M coord unit :=
  match e with
  | ButtonPress inaxes button xdata ydata label =>
      on_click inaxes button xdata ydata label
  | KeyPress key label => on_key_press key label
  | FinishButton label => initiate_finish_polygon label
  | PrevButton => prev_slice
  | NextButton => next_slice
  | SaveButton => save_labels
  end.

(** The events of a session, handled one after the other. *)
Definition run (events : list (event coord)) : M coord unit :=
  for_each events handle.

(** ** Invariants of the session *)

(** An array of [shape.1] rows of [shape.2] values. *)
Definition mask_has_shape (shape : nat * nat) (a : LabelMask) : Prop :=
  length a = shape.1 ∧ Forall (fun row => length row = shape.2) a.

(** [slice_labels.shape == data_zyx.shape] *)
Definition volume_shaped (s : DICOMLabeler coord) : Prop :=
  length (slice_labels s) = (data_shape s).1 ∧
  Forall (mask_has_shape (data_shape s).2) (slice_labels s).

(** The keys of [bone_colors]. *)
Definition registry_keys (s : DICOMLabeler coord) : list Z :=
  map fst (bone_colors s).

(** Every label in the polygon list is a key of [bone_colors] and every
    value of the label volume is 0 or such a key. *)
Definition labels_known (s : DICOMLabeler coord) : Prop :=
  Forall (fun pl => pl.2 ∈ registry_keys s) (polygons s) ∧
  Forall (Forall (Forall (fun v => v = 0%Z ∨ v ∈ registry_keys s)))
         (slice_labels s).

(** What holds of the session whenever a handler has returned. *)
Definition session_invariant (s : DICOMLabeler coord) : Prop :=
  well_formed s ∧ volume_shaped s ∧ labels_known s ∧ waiting_for_label s = false.

(** What a handler that only draws may change between [s] and [s']: the
    label volume, the slice index, the shape and the registry stay,
    [waiting_for_label] is on return what it was, and the polygon list
    either stays or gains, at its end, the in-progress polygon of at least 3
    points under a key of the registry. *)
Definition only_draws (s s' : DICOMLabeler coord) : Prop :=
  slice_labels s' = slice_labels s ∧
  current_slice s' = current_slice s ∧
  data_shape s' = data_shape s ∧
  bone_colors s' = bone_colors s ∧
  waiting_for_label s' = waiting_for_label s ∧
  (polygons s' = polygons s ∨
   ∃ l, l ∈ registry_keys s ∧ 3 ≤ length (current_polygon s) ∧
        polygons s' = polygons s ++ [(current_polygon s, l)] ∧
        current_polygon s' = []).

(** ** Colours and names looked up with a fallback *)

(** [self.bone_colors.get(label, fallback)] *)
Definition bone_colors_get (s : DICOMLabeler coord) (label : Z)
    (fallback : string * string) : string * string :=
  match find (fun kv => Z.eqb kv.1 label) (bone_colors s) with
  | Some kv => kv.2
  | None => fallback
  end.

(** The colour [update_display] draws a polygon of class [label] in
    (line 76). *)
Definition display_color (s : DICOMLabeler coord) (label : Z) : string :=
  (bone_colors_get s label ("white", "Unknown")).1.

(** ** The 3-D review *)

(** One [go.Mesh3d] trace of [visualize_3d]: its [color], its [name] and the
    surface it shows. *)
Record Trace (mesh : Type) := mkTrace {
  trace_color : string;
  trace_name : string;
  trace_mesh : mesh
}.
Arguments mkTrace {mesh}.
Arguments trace_color {mesh}.
Arguments trace_name {mesh}.
Arguments trace_mesh {mesh}.

(** The loop of [visualize_3d] (lines 207-223) over the distinct values
    [labels] of the volume.  [marching_cubes bone_mask level] is
    [skimage.measure.marching_cubes], [None] when it raises; the exception
    then ends the call and no figure is shown. *)
Fixpoint visualize_3d_traces {mesh} (marching_cubes : list (list (list Z)) → Q → option mesh)
    (s : DICOMLabeler coord) (labels : list Z) : option (list (Trace mesh)) :=
  match labels with
  | [] => Some []
  | label :: labels' =>
      if Z.eqb label 0 then visualize_3d_traces marching_cubes s labels'
      else
        let bone_mask :=
          map (map (map (fun v => Z.b2z (Z.eqb v label)))) (slice_labels s) in
        surface ← marching_cubes bone_mask (1 # 2)%Q;
        let color := (bone_colors_get s label ("gray", "Unknown")).1 in
        let name := (bone_colors_get s label ("gray", "Unknown")).2 in
        traces ← visualize_3d_traces marching_cubes s labels';
        Some (mkTrace color (pretty label +:+ ": " +:+ name) surface :: traces)
  end.

(** [visualize_3d]: the active slice is encoded first; the result is the
    list of traces added to the figure. *)
Definition visualize_3d {mesh} (marching_cubes : list (list (list Z)) → Q → option mesh)
    : M coord (option (list (Trace mesh))) :=
  save_current_slice;;
  s ← get;
  mret (visualize_3d_traces marching_cubes s (np_unique (concat (slice_labels s)))).

End Events.

Arguments mkTrace {mesh}.
Arguments trace_color {mesh}.
Arguments trace_name {mesh}.
Arguments trace_mesh {mesh}.

(** ** Loading the series *)

(** [filename.endswith(suffix)] *)
Definition endswith (filename suffix : string) : bool :=
  let n := String.length filename in
  let k := String.length suffix in
  (k <=? n) && String.eqb (substring (n - k) k filename) suffix.

(** The order [sorted] puts file names in: strings compared character by
    character. *)
Definition filename_le (a b : string) : Prop := String.leb a b = true.

#[export] Instance filename_le_dec : RelDecision filename_le.
Proof. intros a b. unfold filename_le. apply _. Defined.

(** [np.stack(slices, axis=0)]: a [ValueError] ([None]) when there is no
    array or when the arrays do not all have the same shape. *)
Definition np_stack {image : Type} (shape_of : image → list nat)
    (slices : list image) : option (list image) :=
  match slices with
  | [] => None
  | first :: rest =>
      if forallb (fun a => bool_decide (shape_of a = shape_of first)) rest
      then Some slices else None
  end.

(** [load_dicom_series] (lines 30-37) on a folder whose [os.listdir] is
    [listdir]; [dcmread filename] is the [pixel_array] pydicom reads from
    that file, [None] when reading raises. *)
Definition load_dicom_series {image : Type} (shape_of : image → list nat)
    (dcmread : string → option image) (listdir : list string)
    : option (list image) :=
  slices ← mapM dcmread
             (filter (fun filename => endswith filename ".dcm" = true)
                     (merge_sort filename_le listdir));
  np_stack shape_of slices.

(** ** A small instance of the interface, for running the model

    Integer coordinates and axis-aligned boxes: [box_polygon] fills the
    bounding box of the vertices inside the shape, [box_contours] traces the
    bounding box of the foreground, [every_other] keeps the points at even
    positions.  They stand in for scikit-image where a statement is
    evaluated on a concrete session. *)

Definition box_polygon (r c : list Z) (shape : nat * nat) : list nat * list nat :=
  match r, c with
  | r0 :: _, c0 :: _ =>
      let lo l x0 := Z.to_nat (foldr Z.min x0 l) in
      let hi l x0 := Z.to_nat (foldr Z.max x0 l) in
      let rows := filter (fun i => i < shape.1) (seq (lo r r0) (S (hi r r0) - lo r r0)) in
      let cols := filter (fun j => j < shape.2) (seq (lo c c0) (S (hi c c0) - lo c c0)) in
      let cells := list_prod rows cols in
      (map fst cells, map snd cells)
  | _, _ => ([], [])
  end.

Definition foreground (image : BoolMask) : list (nat * nat) :=
  concat (imap (fun r row =>
                  omap (fun jc => if jc.2 : bool then Some (r, jc.1) else None)
                       (imap pair row))
               image).

Definition box_contours (image : BoolMask) (level : Q) : list (list (Z * Z)) :=
  match foreground image with
  | [] => []
  | (r0, c0) :: rest =>
      let rlo := foldr Nat.min r0 (map fst rest) in
      let rhi := foldr Nat.max r0 (map fst rest) in
      let clo := foldr Nat.min c0 (map snd rest) in
      let chi := foldr Nat.max c0 (map snd rest) in
      [ [ (Z.of_nat rlo, Z.of_nat clo); (Z.of_nat rlo, Z.of_nat chi);
          (Z.of_nat rhi, Z.of_nat chi); (Z.of_nat rhi, Z.of_nat clo) ] ]
  end.

Fixpoint every_other {A} (l : list A) : list A :=
  match l with
  | x :: _ :: l' => x :: every_other l'
  | _ => l
  end.

Definition box_skimage : Skimage Z :=
  {| polygon := box_polygon;
     find_contours := box_contours;
     approximate_polygon := fun coords _ => every_other coords |}.

(** Two overlapping squares, with [(x, y)] corners, and a session of two
    slices of 4 rows and 5 columns. *)
Definition square_a : list (Z * Z) := [ (1, 1); (1, 2); (2, 2); (2, 1) ]%Z.
Definition square_b : list (Z * Z) := [ (2, 2); (2, 3); (3, 3); (3, 2) ]%Z.
Definition two_slices : DICOMLabeler Z := init (2, (4, 5)).

(** [square_a] drawn on slice 0, before and after the dialog has opened;
    a single point drawn on slice 0. *)
Definition drawing_square : DICOMLabeler Z := set_current_polygon square_a two_slices.
Definition awaiting_square : DICOMLabeler Z := set_waiting_for_label true drawing_square.
Definition drawing_point : DICOMLabeler Z := set_current_polygon [ (1, 1)%Z ] two_slices.

(** Two points, and three collinear points, drawn on slice 0. *)
Definition drawing_two_points : DICOMLabeler Z :=
  set_current_polygon [ (1, 1); (2, 2) ]%Z two_slices.
Definition drawing_collinear : DICOMLabeler Z :=
  set_current_polygon [ (1, 1); (2, 2); (3, 3) ]%Z two_slices.

(** The label array that encodes [labelled_squares]'s polygons. *)
Definition squares_mask : list (list Z) :=
  [ [0; 0; 0; 0; 0]; [0; 1; 1; 0; 0]; [0; 1; 2; 2; 0]; [0; 0; 2; 2; 0] ]%Z.

(** A contour of [n] points along column 0. *)
Definition line_contour (n : nat) : list (Z * Z) :=
  map (fun i => (Z.of_nat i, 0%Z)) (seq 0 n).

(** Both squares labelled on slice 0, [square_a] first. *)
Definition labelled_squares : DICOMLabeler Z :=
  set_polygons [ (square_a, 1%Z); (square_b, 2%Z) ] two_slices.

(** A session on [two_slices]: four left clicks draw [square_a], Enter
    opens the dialog, which is answered with 1, then Next, Previous, Save. *)
Definition sample_run : list (event Z) :=
  [ ButtonPress true 1%Z 1%Z 1%Z None; ButtonPress true 1%Z 1%Z 2%Z None;
    ButtonPress true 1%Z 2%Z 2%Z None; ButtonPress true 1%Z 2%Z 1%Z None;
    KeyPress "enter" (Some 1%Z); NextButton; PrevButton; SaveButton ].

(** A folder listing, and a reader under which every file holds a 4 by 5
    image that is identified by the file's name. *)
Definition sample_listdir : list string := [ "b.dcm"; "notes.txt"; "a.dcm" ].
Definition name_as_image (filename : string) : option string := Some filename.
Definition shape_4_5 (image : string) : list nat := [ 4; 5 ].

(** A surface extractor that always succeeds, with nothing to show. *)
Definition unit_marching_cubes (volume : list (list (list Z))) (level : Q) : option unit :=
  Some tt.

(** * Properties *)

(** ** Pixels of an array under indexed assignment *)

Lemma get_pixel_np_zeros (shape : nat * nat) (r c : nat) :
  get_pixel (np_zeros shape) r c =
  if decide (r < shape.1 ∧ c < shape.2) then Some 0%Z else None.
Proof.
  unfold get_pixel, np_zeros.
  destruct (decide (r < shape.1)) as [Hr|Hr].
  - rewrite lookup_replicate_2 by done. simpl.
    destruct (decide (c < shape.2)) as [Hc|Hc].
    + rewrite lookup_replicate_2 by done. by rewrite decide_True.
    + rewrite (proj1 (lookup_replicate_None _ _ _)) by lia.
      rewrite decide_False; [done | tauto].
  - rewrite (proj1 (lookup_replicate_None _ _ _)) by lia.
    rewrite decide_False; [done | tauto].
Qed.

Lemma get_pixel_set_pixel (a : LabelMask) (r c : nat) (v : Z) (r' c' : nat) :
  get_pixel (set_pixel a r c v) r' c' =
  if decide ((r, c) = (r', c')) then const v <$> get_pixel a r' c'
  else get_pixel a r' c'.
Proof.
  unfold get_pixel, set_pixel.
  destruct (decide (r = r')) as [->|Hr].
  - rewrite list_lookup_alter_eq.
    destruct (a !! r') as [row|] eqn:Hrow; simpl.
    + destruct (decide (c = c')) as [->|Hc].
      * rewrite decide_True by done.
        destruct (row !! c') as [x|] eqn:Hx; simpl.
        -- apply list_lookup_insert_eq. by eapply lookup_lt_Some.
        -- rewrite list_insert_ge; [done | by apply lookup_ge_None].
      * rewrite decide_False by congruence.
        by rewrite list_lookup_insert_ne.
    + by case_decide.
  - rewrite list_lookup_alter_ne by done.
    rewrite decide_False; [done | congruence].
Qed.

Lemma get_pixel_assign_indexed (rr cc : list nat) (v : Z) (a : LabelMask) (r c : nat) :
  get_pixel (assign_indexed a rr cc v) r c =
  if decide ((r, c) ∈ zip rr cc) then const v <$> get_pixel a r c
  else get_pixel a r c.
Proof.
  unfold assign_indexed. generalize (zip rr cc) as ps. intros ps. revert a.
  induction ps as [|[r0 c0] ps IH]; intros a; simpl.
  - done.
  - rewrite IH, get_pixel_set_pixel.
    repeat case_decide; try done;
      try (by destruct (get_pixel a r c));
      exfalso; rewrite elem_of_cons in *; intuition congruence.
Qed.

Section Codec.
Context {coord : Type} {SK : Skimage coord}.
Implicit Types (polys : list (list (@Point coord) * Z)) (shape : nat * nat).

Lemma get_pixel_encode_from (a : LabelMask) polys shape (r c : nat) :
  get_pixel
    (foldl (fun label_array pl =>
              let '(rr, cc) := polygon (map snd pl.1) (map fst pl.1) shape in
              assign_indexed label_array rr cc pl.2) a polys) r c =
  (fun v0 => default v0 (top_label polys shape r c)) <$> get_pixel a r c.
Proof.
  induction polys as [|[pts l] polys IH] using rev_ind.
  - simpl. by destruct (get_pixel a r c).
  - rewrite foldl_snoc. simpl.
    destruct (polygon (map snd pts) (map fst pts) shape) as [rr cc] eqn:Hp.
    rewrite get_pixel_assign_indexed, IH.
    assert (Hr : raster pts shape = zip rr cc) by (unfold raster; by rewrite Hp).
    unfold top_label. rewrite filter_app, filter_cons, filter_nil.
    cbn [fst]. rewrite Hr.
    case_decide; simpl.
    + rewrite last_snoc. by destruct (get_pixel a r c).
    + by rewrite app_nil_r.
Qed.

Lemma get_pixel_encode polys shape (r c : nat) :
  get_pixel (encode_polygons polys shape) r c =
  if decide (r < shape.1 ∧ c < shape.2)
  then Some (default 0%Z (top_label polys shape r c)) else None.
Proof.
  unfold encode_polygons. rewrite get_pixel_encode_from, get_pixel_np_zeros.
  by case_decide.
Qed.

Lemma top_label_last_cover front back (P : list (@Point coord)) (l : Z) shape (r c : nat) :
  (r, c) ∈ raster P shape →
  (∀ pl, pl ∈ back → (r, c) ∉ raster pl.1 shape) →
  top_label (front ++ (P, l) :: back) shape r c = Some l.
Proof.
  intros HP Hback. unfold top_label.
  rewrite filter_app, filter_cons_True by done.
  assert (Hnil : filter (fun pl : list Point * Z => (r, c) ∈ raster pl.1 shape) back = []).
  { induction back as [|pl back IH]; [done|].
    rewrite filter_cons_False by (apply Hback; apply list_elem_of_here).
    apply IH. intros pl' Hin. apply Hback. by apply list_elem_of_further. }
  rewrite Hnil. by rewrite last_snoc.
Qed.

(** C5. Overlap is last-writer-wins: when the polygon list holds [P1] with
    class 1 and later [P2] with class 2, and no polygon after [P2] covers the
    pixel (in particular when the list is [P1], [P2]), every pixel of the
    array that both rasters contain has value 2 after encoding. *)
Theorem encode_overlap_last_writer_wins
    front mid back (P1 P2 : list (@Point coord)) shape (r c : nat) :
  (r, c) ∈ raster P1 shape →
  (r, c) ∈ raster P2 shape →
  r < shape.1 → c < shape.2 →
  (∀ pl, pl ∈ back → (r, c) ∉ raster pl.1 shape) →
  get_pixel (encode_polygons (front ++ (P1, 1%Z) :: mid ++ (P2, 2%Z) :: back) shape) r c
  = Some 2%Z.
Proof.
  intros _ H2 Hr Hc Hback.
  rewrite get_pixel_encode, decide_True by done.
  replace (front ++ (P1, 1%Z) :: mid ++ (P2, 2%Z) :: back)
    with ((front ++ (P1, 1%Z) :: mid) ++ (P2, 2%Z) :: back)
    by (by rewrite <- app_assoc).
  by rewrite (top_label_last_cover _ back P2 2%Z).
Qed.

End Codec.

Example encode_labelled_squares :
  encode_polygons (SK := box_skimage) (polygons labelled_squares) (4, 5) = squares_mask.
Proof. reflexivity. Qed.

Lemma encode_overlap_last_writer_wins_witness :
  (2, 2) ∈ raster (SK := box_skimage) square_a (4, 5) ∧
  (2, 2) ∈ raster (SK := box_skimage) square_b (4, 5) ∧
  get_pixel (encode_polygons (SK := box_skimage)
               [(square_a, 1%Z); (square_b, 2%Z)] (4, 5)) 2 2 = Some 2%Z.
Proof.
  assert (Ha : (2, 2) ∈ raster (SK := box_skimage) square_a (4, 5))
    by (apply (bool_decide_unpack _); vm_compute; exact I).
  assert (Hb : (2, 2) ∈ raster (SK := box_skimage) square_b (4, 5))
    by (apply (bool_decide_unpack _); vm_compute; exact I).
  split; [exact Ha | split; [exact Hb |]].
  apply (encode_overlap_last_writer_wins (SK := box_skimage)
           [] [] [] square_a square_b (4, 5) 2 2 Ha Hb);
    [simpl; lia | simpl; lia |].
  intros pl Hpl. inversion Hpl.
Defined.

(** ** The session *)

Ltac run_handler :=
  unfold exec, effects, result, mbind, M_bind, mret, M_ret,
         get, modify, print, emit, update_display in *; simpl in *.

Section Session.
Context {coord : Type} {SK : Skimage coord}.
Implicit Types (s : DICOMLabeler coord) (label : option Z).

Lemma in_bone_colors_false (l : Z) s :
  l ∉ map fst (bone_colors s) → in_bone_colors l s = false.
Proof.
  intros Hl. unfold in_bone_colors.
  destruct (existsb _ _) eqn:He; [|done].
  apply existsb_exists in He as ([k v] & Hin & Hk). simpl in Hk.
  apply Z.eqb_eq in Hk as ->. exfalso. apply Hl.
  apply list_elem_of_In, in_map_iff. by exists (l, v).
Qed.

Lemma exec_save_current_slice s :
  exec save_current_slice s =
  set_slice_labels
    (<[current_slice s := encode_polygons (polygons s) (data_shape s).2]>
       (slice_labels s)) s.
Proof. reflexivity. Qed.

Lemma exec_load_slice_data s :
  exec load_slice_data s =
  set_polygons (decode_mask (slice_labels s !!! current_slice s)) s.
Proof. reflexivity. Qed.

Lemma exec_finish_polygon_close_rejected s label :
  (∀ l, label = Some l → l ∉ map fst (bone_colors s)) →
  exec (finish_polygon_close label) s = set_waiting_for_label false s.
Proof.
  intros Hl. unfold finish_polygon_close. run_handler.
  destruct label as [l|]; [|done].
  by rewrite (in_bone_colors_false l s) by (by apply Hl).
Qed.

(** C1, as the code has it. When the dialog is answered with a code that is
    not a key of [bone_colors], or is cancelled, the in-progress polygon is
    kept as it is; the polygon list, the label volume and the slice index are
    unchanged and [waiting_for_label] is cleared, so the session is Drawing
    when the polygon is non-empty and Browsing only when it is empty. *)
Theorem assign_unrecognized_keeps_polygon s label :
  state_of s = AwaitingLabel →
  (∀ l, label = Some l → l ∉ map fst (bone_colors s)) →
  let s' := exec (finish_polygon_close label) s in
  current_polygon s' = current_polygon s ∧
  polygons s' = polygons s ∧
  slice_labels s' = slice_labels s ∧
  current_slice s' = current_slice s ∧
  waiting_for_label s' = false ∧
  state_of s' = match current_polygon s with [] => Browsing | _ => Drawing end.
Proof.
  intros _ Hl s'. subst s'.
  rewrite exec_finish_polygon_close_rejected by done.
  by repeat split.
Qed.

End Session.

Lemma assign_unrecognized_keeps_polygon_witness :
  state_of awaiting_square = AwaitingLabel ∧
  (99%Z ∉ map fst (bone_colors awaiting_square)) ∧
  current_polygon (exec (finish_polygon_close (Some 99%Z)) awaiting_square) = square_a ∧
  state_of (exec (finish_polygon_close (Some 99%Z)) awaiting_square) = Drawing.
Proof.
  assert (H99 : 99%Z ∉ map fst (bone_colors awaiting_square))
    by (apply (bool_decide_unpack _); vm_compute; exact I).
  split; [reflexivity | split; [exact H99 |]].
  assert (Hany : ∀ l, Some 99%Z = Some l → l ∉ map fst (bone_colors awaiting_square))
    by (intros l [= <-]; exact H99).
  destruct (assign_unrecognized_keeps_polygon awaiting_square (Some 99%Z)
              eq_refl Hany) as (Hp & _ & _ & _ & _ & Hst).
  split; [exact Hp | exact Hst].
Defined.

(** C1 as stated fails: after the unrecognized code 99 the in-progress
    polygon is still there and the session is Drawing, not Browsing. *)
Lemma assign_unrecognized_discards_counterexample :
  state_of awaiting_square = AwaitingLabel ∧
  (99%Z ∉ map fst (bone_colors awaiting_square)) ∧
  current_polygon (exec (finish_polygon_close (Some 99%Z)) awaiting_square) ≠ [] ∧
  state_of (exec (finish_polygon_close (Some 99%Z)) awaiting_square) ≠ Browsing.
Proof.
  split; [reflexivity|].
  split; [apply (bool_decide_unpack _); vm_compute; exact I|].
  split; vm_compute; discriminate.
Qed.

Section Navigation.
Context {coord : Type} {SK : Skimage coord}.
Implicit Types (s : DICOMLabeler coord).

Lemma exec_prev_slice s :
  0 < current_slice s →
  exec prev_slice s =
  exec load_slice_data
    (set_current_slice (current_slice s - 1) (exec save_current_slice s)).
Proof.
  intros Hpos. unfold prev_slice. run_handler.
  by rewrite (proj2 (Nat.ltb_lt _ _)) by done.
Qed.

Lemma exec_next_slice s :
  current_slice s < (data_shape s).1 - 1 →
  exec next_slice s =
  exec load_slice_data
    (set_current_slice (current_slice s + 1) (exec save_current_slice s)).
Proof.
  intros Hlt. unfold next_slice. run_handler.
  by rewrite (proj2 (Nat.ltb_lt _ _)) by done.
Qed.

(** C2, as the code has it. Outside AwaitingLabel, [prev_slice] on a slice
    that is not the first and [next_slice] on a slice that is not the last
    move the slice index by exactly one and replace the polygon list by the
    decoding of the new slice's label array; the in-progress polygon is
    carried over unchanged, so the session state is what it was (Browsing if
    there was no in-progress polygon, Drawing otherwise). *)
Theorem navigate_keeps_in_progress_polygon s :
  state_of s ≠ AwaitingLabel →
  (0 < current_slice s →
   let s' := exec prev_slice s in
   current_slice s' + 1 = current_slice s ∧
   current_polygon s' = current_polygon s ∧
   polygons s' = decode_mask (slice_labels s' !!! current_slice s') ∧
   state_of s' = state_of s) ∧
  (current_slice s < (data_shape s).1 - 1 →
   let s' := exec next_slice s in
   current_slice s' = current_slice s + 1 ∧
   current_polygon s' = current_polygon s ∧
   polygons s' = decode_mask (slice_labels s' !!! current_slice s') ∧
   state_of s' = state_of s).
Proof.
  intros _. split; intros Hnav s'; subst s'.
  - rewrite exec_prev_slice by done.
    rewrite exec_load_slice_data, exec_save_current_slice. simpl.
    repeat split; lia.
  - rewrite exec_next_slice by done.
    rewrite exec_load_slice_data, exec_save_current_slice. simpl.
    by repeat split.
Qed.

End Navigation.

Lemma navigate_keeps_in_progress_polygon_witness :
  state_of drawing_point ≠ AwaitingLabel ∧
  current_slice drawing_point < (data_shape drawing_point).1 - 1 ∧
  current_slice (exec (next_slice (SK := box_skimage)) drawing_point) = 1 ∧
  current_polygon (exec (next_slice (SK := box_skimage)) drawing_point) = [ (1, 1)%Z ] ∧
  state_of (exec (next_slice (SK := box_skimage)) drawing_point) = Drawing.
Proof.
  assert (Hst : state_of drawing_point ≠ AwaitingLabel) by (vm_compute; discriminate).
  assert (Hlt : current_slice drawing_point < (data_shape drawing_point).1 - 1)
    by (vm_compute; lia).
  split; [exact Hst | split; [exact Hlt |]].
  destruct (navigate_keeps_in_progress_polygon (SK := box_skimage) drawing_point Hst)
    as [_ Hnext].
  destruct (Hnext Hlt) as (Hi & Hp & _ & Hs).
  split; [exact Hi | split; [exact Hp | exact Hs]].
Defined.

(** C2 as stated fails: with one point drawn on slice 0 of two, [next_slice]
    moves to slice 1 and the point is still the in-progress polygon; the
    session is Drawing, not Browsing. *)
Lemma navigate_discards_counterexample :
  state_of drawing_point ≠ AwaitingLabel ∧
  current_slice drawing_point < (data_shape drawing_point).1 - 1 ∧
  current_slice (exec (next_slice (SK := box_skimage)) drawing_point) = 1 ∧
  current_polygon (exec (next_slice (SK := box_skimage)) drawing_point) ≠ [] ∧
  state_of (exec (next_slice (SK := box_skimage)) drawing_point) ≠ Browsing.
Proof.
  split; [vm_compute; discriminate|].
  split; [vm_compute; lia|].
  split; [reflexivity|].
  split; vm_compute; discriminate.
Qed.

(** C4 at a failing input: the dialog is up for [square_a] on slice 0
    ([waiting_for_label] is set) and [next_slice] still moves the session to
    slice 1; [prev_slice] and [next_slice] do not test [waiting_for_label]. *)
Lemma navigate_while_awaiting_label_moves :
  state_of awaiting_square = AwaitingLabel ∧
  current_slice awaiting_square = 0 ∧
  current_slice (exec (next_slice (SK := box_skimage)) awaiting_square) = 1 ∧
  state_of (exec (next_slice (SK := box_skimage)) awaiting_square) = AwaitingLabel ∧
  polygons (exec (finish_polygon_close (Some 1%Z))
              (exec (next_slice (SK := box_skimage)) awaiting_square))
  = [ (square_a, 1%Z) ].
Proof. by vm_compute. Qed.

Section Guards.
Context {coord : Type}.
Implicit Types (s : DICOMLabeler coord) (label : option Z).

(** The handlers that do test [waiting_for_label] leave the session alone
    while the dialog is up. *)
Lemma input_blocked_while_awaiting_label s inaxes button (x y : coord) key label :
  waiting_for_label s = true →
  exec (on_click inaxes button x y label) s = s ∧
  exec (on_key_press key label) s = s ∧
  exec (initiate_finish_polygon label) s = s.
Proof.
  intros Hw.
  unfold on_click, on_key_press, initiate_finish_polygon, finish_polygon_open.
  run_handler. by rewrite Hw.
Qed.

Lemma for_each_print_session {A} (f : A → string) (l : list A) s :
  (for_each l (fun x => print (f x)) s).1.2 = s.
Proof.
  induction l as [|x l IH]; [done|].
  cbn [for_each]. unfold mbind, M_bind, print, emit in *.
  destruct (for_each l _ s) as [[r s1] e1]. simpl in *. by subst.
Qed.

(** C7. In Drawing, finishing with fewer than 3 points changes no field and
    prints the message about needing 3 points; with 3 or more points,
    whatever they are, the handler sets [waiting_for_label] and opens the
    dialog, the in-progress polygon and the polygon list being as before. *)
Theorem finish_guard s label :
  state_of s = Drawing →
  (length (current_polygon s) < 3 →
   exec (initiate_finish_polygon label) s = s ∧
   effects (initiate_finish_polygon label) s
   = [ Print "Need at least 3 points to form a polygon." ]) ∧
  (3 ≤ length (current_polygon s) →
   let s' := exec finish_polygon_open s in
   result finish_polygon_open s = true ∧
   state_of s' = AwaitingLabel ∧
   current_polygon s' = current_polygon s ∧
   polygons s' = polygons s).
Proof.
  intros Hst.
  assert (Hw : waiting_for_label s = false).
  { unfold state_of in Hst. by destruct (waiting_for_label s). }
  split.
  - intros Hlen. unfold initiate_finish_polygon, finish_polygon_open.
    run_handler. rewrite Hw.
    by rewrite (proj2 (Nat.ltb_lt _ _)) by done.
  - intros Hlen s'. subst s'. unfold finish_polygon_open.
    run_handler. rewrite Hw.
    rewrite (proj2 (Nat.ltb_ge _ _)) by done.
    pose proof (for_each_print_session
      (fun kv : Z * (string * string) =>
         pretty kv.1 +:+ ": " +:+ kv.2.2 +:+ " (" +:+ kv.2.1 +:+ ")")
      (bone_colors s) (set_waiting_for_label true s)) as Hm.
    unfold print, emit in Hm.
    destruct (for_each (bone_colors s) _ (set_waiting_for_label true s))
      as [[r s1] e1].
    simpl in *. by subst s1.
Qed.

End Guards.

Lemma finish_guard_witness :
  (state_of drawing_two_points = Drawing ∧
   length (current_polygon drawing_two_points) < 3 ∧
   exec (initiate_finish_polygon (Some 1%Z)) drawing_two_points = drawing_two_points) ∧
  (state_of drawing_collinear = Drawing ∧
   3 ≤ length (current_polygon drawing_collinear) ∧
   state_of (exec finish_polygon_open drawing_collinear) = AwaitingLabel).
Proof.
  split.
  - assert (Hlen : length (current_polygon drawing_two_points) < 3) by (simpl; lia).
    split; [reflexivity | split; [exact Hlen |]].
    destruct (finish_guard drawing_two_points (Some 1%Z) eq_refl) as [Hfew _].
    exact (proj1 (Hfew Hlen)).
  - assert (Hlen : 3 ≤ length (current_polygon drawing_collinear)) by (simpl; lia).
    split; [reflexivity | split; [exact Hlen |]].
    destruct (finish_guard drawing_collinear None eq_refl) as [_ Hmany].
    exact (proj1 (proj2 (Hmany Hlen))).
Defined.

Section Saving.
Context {coord : Type} {SK : Skimage coord}.
Implicit Types (s : DICOMLabeler coord).

(** C6. Outside AwaitingLabel, with the slice index inside the label
    volume, [save_labels] stores the encoding of the polygon list at the
    active slice of the label volume, leaves every other slice, the slice
    index, the in-progress polygon and the polygon list as they were, and
    then passes the whole label volume to [np.save] and the registry, as the
    two dictionaries code to colour and code to name, to [json.dump]. *)
Theorem save_labels_frame s :
  state_of s ≠ AwaitingLabel →
  current_slice s < length (slice_labels s) →
  let s' := exec save_labels s in
  slice_labels s' !! current_slice s
  = Some (encode_polygons (polygons s) (data_shape s).2) ∧
  (∀ i, i ≠ current_slice s → slice_labels s' !! i = slice_labels s !! i) ∧
  length (slice_labels s') = length (slice_labels s) ∧
  current_slice s' = current_slice s ∧
  current_polygon s' = current_polygon s ∧
  polygons s' = polygons s ∧
  state_of s' = state_of s ∧
  effects save_labels s
  = [ NpSave "bone_labels.npy" (slice_labels s');
      JsonDump "label_metadata.json"
        (mkMetadata (map (fun kv => (kv.1, kv.2.1)) (bone_colors s))
                    (map (fun kv => (kv.1, kv.2.2)) (bone_colors s)));
      Print "Labels saved to bone_labels.npy and label_metadata.json" ].
Proof.
  intros _ Hcur s'. subst s'. unfold save_labels, save_current_slice.
  run_handler. repeat split.
  - by apply list_lookup_insert_eq.
  - intros i Hi. by apply list_lookup_insert_ne.
  - apply length_insert.
Qed.

End Saving.

Lemma save_labels_frame_witness :
  state_of labelled_squares ≠ AwaitingLabel ∧
  current_slice labelled_squares < length (slice_labels labelled_squares) ∧
  slice_labels (exec (save_labels (SK := box_skimage)) labelled_squares) !! 0
  = Some (encode_polygons (SK := box_skimage) (polygons labelled_squares) (4, 5)) ∧
  slice_labels (exec (save_labels (SK := box_skimage)) labelled_squares) !! 1
  = slice_labels labelled_squares !! 1.
Proof.
  assert (Hst : state_of labelled_squares ≠ AwaitingLabel) by (vm_compute; discriminate).
  assert (Hcur : current_slice labelled_squares < length (slice_labels labelled_squares))
    by (vm_compute; lia).
  split; [exact Hst | split; [exact Hcur |]].
  destruct (save_labels_frame (SK := box_skimage) labelled_squares Hst Hcur)
    as (Hact & Hoth & _).
  split; [exact Hact | apply Hoth; simpl; lia].
Defined.

(** ** Decoding *)

Lemma insert_unique_elem (v x : Z) (l : list Z) :
  x ∈ insert_unique v l ↔ x = v ∨ x ∈ l.
Proof.
  induction l as [|y l IH]; simpl.
  - rewrite list_elem_of_singleton, elem_of_nil. tauto.
  - destruct (Z.ltb_spec v y) as [Hlt|Hge].
    + by rewrite elem_of_cons.
    + destruct (Z.eqb_spec v y) as [->|Hne].
      * rewrite elem_of_cons. tauto.
      * rewrite !elem_of_cons, IH. tauto.
Qed.

Lemma insert_unique_sorted (v : Z) (l : list Z) :
  StronglySorted Z.lt l → StronglySorted Z.lt (insert_unique v l).
Proof.
  induction 1 as [|y l Hl IH Hy]; simpl.
  - repeat constructor.
  - destruct (Z.ltb_spec v y) as [Hlt|Hge].
    + constructor; [by constructor|].
      constructor; [done|].
      eapply Forall_impl; [exact Hy|]. simpl. intros; lia.
    + destruct (Z.eqb_spec v y) as [->|Hne]; [by constructor|].
      constructor; [done|].
      apply Forall_forall. intros x [->|Hx]%insert_unique_elem; [lia|].
      by eapply Forall_forall in Hy.
Qed.

Lemma np_unique_sorted (a : LabelMask) : StronglySorted Z.lt (np_unique a).
Proof.
  unfold np_unique. induction (concat a) as [|v l IH]; simpl.
  - constructor.
  - by apply insert_unique_sorted.
Qed.

Lemma np_unique_elem (a : LabelMask) (v : Z) :
  v ∈ np_unique a ↔ ∃ row, row ∈ a ∧ v ∈ row.
Proof.
  unfold np_unique.
  transitivity (v ∈ concat a).
  - induction (concat a) as [|x l IH]; simpl; [done|].
    rewrite insert_unique_elem, elem_of_cons, IH. tauto.
  - rewrite !list_elem_of_In, in_concat.
    split; intros (row & H1 & H2); exists row; by rewrite ?list_elem_of_In in *.
Qed.

Section Decode.
Context {coord : Type} {SK : Skimage coord}.
Implicit Types (contour : list (coord * coord)) (label_array : LabelMask).

Lemma decode_mask_elem label_array (p : list (@Point coord)) (l : Z) :
  (p, l) ∈ decode_mask label_array ↔
  l ∈ np_unique label_array ∧ l ≠ 0%Z ∧
  ∃ contour, contour ∈ find_contours (mask_eq label_array l) (1 # 2)%Q ∧
             p = decode_contour contour.
Proof.
  unfold decode_mask. rewrite list_elem_of_In, in_flat_map. split.
  - intros (l' & Hl' & Hin). destruct (Z.eqb_spec l' 0) as [|Hne]; [done|].
    apply in_map_iff in Hin as (contour & [= <- <-] & Hc).
    rewrite list_elem_of_In. split; [done|]. split; [done|].
    exists contour. by rewrite list_elem_of_In.
  - intros (Hl & Hne & contour & Hc & ->). exists l.
    split; [by apply list_elem_of_In|].
    destruct (Z.eqb_spec l 0) as [|_]; [done|].
    apply in_map_iff. exists contour. by rewrite <- list_elem_of_In.
Qed.

(** C8. A traced contour is replaced by [approximate_polygon(contour,
    tolerance=1)] exactly when it has more than 100 points; with 100 points
    or fewer its points are emitted as they are, each turned from
    [(row, column)] into [(x, y)].  The decoded pairs are these polygons,
    one per contour of every non-zero value of the array. *)
Theorem decode_simplifies_long_contours :
  (∀ contour, length contour ≤ 100 →
     decode_contour contour = map (fun pt => (pt.2, pt.1)) contour) ∧
  (∀ contour, 100 < length contour →
     decode_contour contour
     = map (fun pt => (pt.2, pt.1)) (approximate_polygon contour 1%Z)) ∧
  (∀ label_array (p : list (@Point coord)) (l : Z),
     (p, l) ∈ decode_mask label_array ↔
     l ∈ np_unique label_array ∧ l ≠ 0%Z ∧
     ∃ contour, contour ∈ find_contours (mask_eq label_array l) (1 # 2)%Q ∧
                p = decode_contour contour).
Proof.
  split; [|split].
  - intros contour Hlen. unfold decode_contour.
    by rewrite (proj2 (Nat.ltb_ge _ _)) by done.
  - intros contour Hlen. unfold decode_contour.
    by rewrite (proj2 (Nat.ltb_lt _ _)) by done.
  - apply decode_mask_elem.
Qed.

(** C9. No pair produced by decoding has class code 0, neither from
    [decode_mask] on any array nor in the polygon list [load_slice_data]
    leaves in the session. *)
Theorem decode_never_background :
  (∀ label_array, Forall (fun pl => pl.2 ≠ 0%Z) (decode_mask label_array)) ∧
  (∀ s : DICOMLabeler coord,
     Forall (fun pl => pl.2 ≠ 0%Z) (polygons (exec load_slice_data s))).
Proof.
  assert (Hdec : ∀ label_array,
             Forall (fun pl : list Point * Z => pl.2 ≠ 0%Z) (decode_mask label_array)).
  { intros label_array. apply Forall_forall. intros [p l] Hin.
    apply decode_mask_elem in Hin. simpl. tauto. }
  split; [exact Hdec|].
  intros s. rewrite exec_load_slice_data. simpl. apply Hdec.
Qed.

End Decode.

Lemma decode_simplifies_long_contours_witness :
  (length (line_contour 100) ≤ 100 ∧
   decode_contour (SK := box_skimage) (line_contour 100)
   = map (fun pt => (pt.2, pt.1)) (line_contour 100)) ∧
  (100 < length (line_contour 101) ∧
   decode_contour (SK := box_skimage) (line_contour 101)
   = map (fun pt => (pt.2, pt.1)) (every_other (line_contour 101))).
Proof.
  destruct (decode_simplifies_long_contours (SK := box_skimage))
    as (Hshort & Hlong & _).
  split.
  - assert (Hlen : length (line_contour 100) ≤ 100) by (vm_compute; lia).
    split; [exact Hlen | exact (Hshort _ Hlen)].
  - assert (Hlen : 100 < length (line_contour 101)) by (vm_compute; lia).
    split; [exact Hlen | exact (Hlong _ Hlen)].
Defined.

Section Reencode.
Context {coord : Type} {SK : Skimage coord}.
Implicit Types (label_array : LabelMask) (polys : list (list (@Point coord) * Z)).

Lemma same_label_sorted polys (l : Z) :
  Forall (fun pl => pl.2 = l) polys → StronglySorted by_label polys.
Proof.
  induction 1 as [|pl polys Hpl Hall IH]; constructor; [done|].
  eapply Forall_impl; [exact Hall|]. unfold by_label. simpl. intros; lia.
Qed.

Lemma decode_groups_sorted label_array (ls : list Z) :
  StronglySorted Z.lt ls →
  StronglySorted by_label
    (flat_map (fun label =>
                 if Z.eqb label 0 then []
                 else map (fun contour => (decode_contour contour, label))
                          (find_contours (mask_eq label_array label) (1 # 2)%Q))
              ls).
Proof.
  set (f := fun label : Z => _).
  assert (Hf : ∀ l pl, pl ∈ f l → pl.2 = l).
  { intros l pl. unfold f. destruct (Z.eqb l 0); [by intros ?%elem_of_nil|].
    rewrite list_elem_of_In, in_map_iff. by intros (c & <- & _). }
  induction 1 as [|x ls Hls IH Hx]; simpl; [constructor|].
  apply StronglySorted_app_2; [| |exact IH].
  - intros a b Ha Hb. apply Hf in Ha.
    apply list_elem_of_In, in_flat_map in Hb as (y & Hy & Hb).
    apply list_elem_of_In, Hf in Hb.
    eapply Forall_forall in Hx; [|by apply list_elem_of_In].
    unfold by_label. lia.
  - apply (same_label_sorted _ x), Forall_forall. intros pl. apply Hf.
Qed.

Lemma decode_mask_sorted label_array :
  StronglySorted by_label (decode_mask label_array).
Proof. apply decode_groups_sorted, np_unique_sorted. Qed.

Lemma decode_mask_groups label_array :
  decode_mask label_array
  = flat_map (fun label =>
                map (fun contour => (decode_contour contour, label))
                    (find_contours (mask_eq label_array label) (1 # 2)%Q))
             (filter (fun label => label ≠ 0%Z) (np_unique label_array)).
Proof.
  unfold decode_mask. induction (np_unique label_array) as [|x ls IH]; [done|].
  simpl. rewrite IH, filter_cons.
  destruct (Z.eqb_spec x 0) as [->|Hne].
  - by rewrite decide_False by (intros H; by apply H).
  - by rewrite decide_True.
Qed.

Lemma filter_sorted (P : Z → Prop) `{!∀ x, Decision (P x)} (ls : list Z) :
  StronglySorted Z.lt ls → StronglySorted Z.lt (filter P ls).
Proof.
  induction 1 as [|x ls Hls IH Hx]; [constructor|].
  rewrite filter_cons. case_decide; [|done].
  constructor; [done|].
  apply Forall_forall. intros y [_ Hy]%list_elem_of_filter.
  by eapply Forall_forall in Hx.
Qed.

(** In a list ordered by class code, the last polygon covering a pixel
    carries the largest class code of the polygons covering it. *)
Lemma top_label_sorted_max polys shape (r c : nat) (p : list (@Point coord)) (l : Z) :
  StronglySorted by_label polys →
  (p, l) ∈ polys → (r, c) ∈ raster p shape →
  ∃ p' v, top_label polys shape r c = Some v ∧
          (p', v) ∈ polys ∧ (r, c) ∈ raster p' shape ∧ (l ≤ v)%Z.
Proof.
  intros Hsorted Hin Hcov. unfold top_label.
  destruct (last (filter _ polys)) as [[p' v]|] eqn:Hlast.
  - exists p', v. split; [done|].
    pose proof Hlast as (front & back & -> & Hback)%last_filter_Some.
    apply last_Some in Hlast as [pre Hpre].
    assert (Hmem : (p', v) ∈ filter (fun pl : list Point * Z =>
                                       (r, c) ∈ raster pl.1 shape)
                                    (front ++ (p', v) :: back)).
    { rewrite Hpre. apply elem_of_app. right. apply list_elem_of_here. }
    apply list_elem_of_filter in Hmem as [Hcov' Hin'].
    split; [done|]. split; [done|].
    apply elem_of_app in Hin as [Hfront|Hrest].
    + apply (StronglySorted_app_1_elem_of _ _ _ (p, l) (p', v)) in Hsorted;
        [done | done | apply list_elem_of_here].
    + apply elem_of_cons in Hrest as [[= -> ->]|Hb]; [lia|].
      eapply Forall_forall in Hback; [|exact Hb]. by destruct Hback.
  - exfalso. apply last_None in Hlast.
    assert (Hmem : (p, l) ∈ filter (fun pl : list Point * Z =>
                                      (r, c) ∈ raster pl.1 shape) polys)
      by (by apply list_elem_of_filter).
    rewrite Hlast in Hmem. by apply elem_of_nil in Hmem.
Qed.

(** C10. The distinct values of the array are enumerated in strictly
    ascending order, and decoding lists, for every non-zero one of them in
    that order, the polygons of its contours, so the decoded pairs are
    ordered by class code.  When the decoded list is encoded again, a pixel
    of the array covered by a decoded polygon of class [l] gets a class code
    [v] at least [l] that belongs to a decoded polygon covering it: the
    largest class code among the decoded polygons covering the pixel. *)
Theorem decode_ascending_larger_code_wins label_array :
  StronglySorted Z.lt (filter (fun label => label ≠ 0%Z) (np_unique label_array)) ∧
  decode_mask label_array
  = flat_map (fun label =>
                map (fun contour => (decode_contour contour, label))
                    (find_contours (mask_eq label_array label) (1 # 2)%Q))
             (filter (fun label => label ≠ 0%Z) (np_unique label_array)) ∧
  StronglySorted by_label (decode_mask label_array) ∧
  (∀ shape (r c : nat) (p : list (@Point coord)) (l : Z),
     (p, l) ∈ decode_mask label_array →
     (r, c) ∈ raster p shape →
     r < shape.1 → c < shape.2 →
     ∃ p' v,
       get_pixel (encode_polygons (decode_mask label_array) shape) r c = Some v ∧
       (p', v) ∈ decode_mask label_array ∧
       (r, c) ∈ raster p' shape ∧
       (l ≤ v)%Z).
Proof.
  split; [apply filter_sorted, np_unique_sorted|].
  split; [apply decode_mask_groups|].
  split; [apply decode_mask_sorted|].
  intros shape r c p l Hin Hcov Hr Hc.
  destruct (top_label_sorted_max _ shape r c p l (decode_mask_sorted label_array) Hin Hcov)
    as (p' & v & Htop & Hin' & Hcov' & Hle).
  exists p', v. rewrite get_pixel_encode, decide_True by done.
  by rewrite Htop.
Qed.

End Reencode.

Lemma decode_ascending_larger_code_wins_witness :
  ([ (1, 1); (2, 1); (2, 2); (1, 2) ]%Z, 1%Z) ∈ decode_mask (SK := box_skimage) squares_mask ∧
  (2, 2) ∈ raster (SK := box_skimage) [ (1, 1); (2, 1); (2, 2); (1, 2) ]%Z (4, 5) ∧
  ∃ p' v,
    get_pixel (encode_polygons (SK := box_skimage)
                 (decode_mask (SK := box_skimage) squares_mask) (4, 5)) 2 2 = Some v ∧
    (p', v) ∈ decode_mask (SK := box_skimage) squares_mask ∧
    (2, 2) ∈ raster (SK := box_skimage) p' (4, 5) ∧
    (1 ≤ v)%Z.
Proof.
  assert (Hin : ([ (1, 1); (2, 1); (2, 2); (1, 2) ]%Z, 1%Z)
                ∈ decode_mask (SK := box_skimage) squares_mask)
    by (apply (bool_decide_unpack _); vm_compute; exact I).
  assert (Hcov : (2, 2) ∈ raster (SK := box_skimage)
                   [ (1, 1); (2, 1); (2, 2); (1, 2) ]%Z (4, 5))
    by (apply (bool_decide_unpack _); vm_compute; exact I).
  split; [exact Hin | split; [exact Hcov |]].
  destruct (decode_ascending_larger_code_wins (SK := box_skimage) squares_mask)
    as (_ & _ & _ & Hmax).
  apply (Hmax (4, 5) 2 2 _ 1%Z Hin Hcov); simpl; lia.
Defined.

(** ** Coordinate order and the session invariant *)

Section Conventions.
Context {coord : Type} {SK : Skimage coord}.
Implicit Types (s : DICOMLabeler coord).

(** X23. Encoding a decoded polygon rasterises the contour it came from with
    the contour's rows as rows and its columns as columns: the swap to
    [(x, y)] in [load_slice_data] and the swap back in [save_current_slice]
    cancel. *)
Lemma raster_decode_contour (contour : list (coord * coord)) (shape : nat * nat) :
  raster (decode_contour contour) shape =
  let traced :=
    if 100 <? length contour then approximate_polygon contour 1%Z else contour in
  let '(rr, cc) := polygon (map fst traced) (map snd traced) shape in
  zip rr cc.
Proof.
  unfold raster, decode_contour. cbv zeta.
  by rewrite !map_map.
Qed.

Lemma init_well_formed (S0 H W : nat) : 0 < S0 → well_formed (coord := coord) (init (S0, (H, W))).
Proof. intros HS. split; simpl; [apply length_replicate | done]. Qed.

Lemma navigation_well_formed s :
  well_formed s →
  well_formed (exec prev_slice s) ∧ well_formed (exec next_slice s) ∧
  well_formed (exec save_labels s).
Proof.
  intros [Hlen Hcur]. unfold well_formed, prev_slice, next_slice, save_labels,
    save_current_slice, load_slice_data.
  run_handler.
  destruct (0 <? current_slice s) eqn:Hp;
    destruct (current_slice s <? (data_shape s).1 - 1) eqn:Hn;
    simpl; rewrite ?length_insert;
    try apply Nat.ltb_lt in Hn; repeat split; lia.
Qed.

End Conventions.

(** * Further properties of the handlers *)

(** ** What each handler computes *)

Section HandlerEquations.
Context {coord : Type} {SK : Skimage coord}.
Implicit Types (s : DICOMLabeler coord) (label : option Z).

Lemma for_each_print {A} (f : A → string) (l : list A) s :
  for_each l (fun x => print (f x)) s = (tt, s, map (fun x => Print (f x)) l).
Proof.
  induction l as [|x l IH]; [done|].
  cbn [for_each]. unfold mbind, M_bind, print, emit in *. by rewrite IH.
Qed.

(** The session a dialog answer leaves behind. *)
Lemma exec_finish_polygon_close s label :
  exec (finish_polygon_close label) s =
  set_waiting_for_label false
    match label with
    | Some l =>
        if in_bone_colors l s
        then set_current_polygon []
               (set_polygons (polygons s ++ [(current_polygon s, l)]) s)
        else s
    | None => s
    end.
Proof.
  unfold finish_polygon_close. run_handler.
  destruct label as [l|]; [|done]. by destruct (in_bone_colors l s).
Qed.

Lemma finish_polygon_open_run s :
  finish_polygon_open s =
  if waiting_for_label s then (false, s, [])
  else if length (current_polygon s) <? 3
  then (false, s, [ Print "Need at least 3 points to form a polygon." ])
  else (true, set_waiting_for_label true s,
        CanvasDraw :: Print (String "010"%char "Available bone labels:")
        :: map (fun kv : Z * (string * string) =>
                  Print (pretty kv.1 +:+ ": " +:+ kv.2.2 +:+ " (" +:+ kv.2.1 +:+ ")"))
               (bone_colors s)).
Proof.
  unfold finish_polygon_open. unfold mbind, M_bind, get.
  destruct (waiting_for_label s); [done|].
  destruct (length (current_polygon s) <? 3); [done|].
  unfold modify, emit at 1. unfold print at 1. unfold emit at 1.
  rewrite for_each_print. unfold mret, M_ret. simpl.
  by rewrite app_nil_r.
Qed.

Lemma exec_initiate_finish_polygon s label :
  exec (initiate_finish_polygon label) s =
  if waiting_for_label s then s
  else if length (current_polygon s) <? 3 then s
  else exec (finish_polygon_close label) (set_waiting_for_label true s).
Proof.
  unfold initiate_finish_polygon, exec, mbind, M_bind.
  rewrite finish_polygon_open_run.
  destruct (waiting_for_label s); [done|].
  destruct (length (current_polygon s) <? 3); [done|].
  by destruct (finish_polygon_close label (set_waiting_for_label true s)) as [[? ?] ?].
Qed.

Lemma exec_on_click s inaxes button (x y : coord) label :
  exec (on_click inaxes button x y label) s =
  if waiting_for_label s then s
  else if negb inaxes then s
  else if Z.eqb button 1
  then set_current_polygon (current_polygon s ++ [(x, y)]) s
  else exec (initiate_finish_polygon label) s.
Proof.
  unfold on_click, exec, mbind, M_bind, get.
  destruct (waiting_for_label s); [done|].
  unfold print, emit. destruct (negb inaxes); [done|].
  destruct (Z.eqb button 1); [done|].
  by destruct (initiate_finish_polygon label s) as [[? ?] ?].
Qed.

Lemma exec_on_key_press s key label :
  exec (on_key_press key label) s =
  if waiting_for_label s then s
  else if String.eqb key "delete" || String.eqb key "backspace"
  then set_current_polygon (removelast (current_polygon s)) s
  else if String.eqb key "c" then set_current_polygon [] s
  else if String.eqb key "enter" then exec (initiate_finish_polygon label) s
  else s.
Proof.
  unfold on_key_press, exec, mbind, M_bind, get.
  destruct (waiting_for_label s) eqn:Hw; [done|].
  destruct (_ || _).
  - destruct s as [sh vol cur polys cp reg w]. simpl in *.
    destruct cp; [by subst | done].
  - destruct (String.eqb key "c"); [done|].
    destruct (String.eqb key "enter"); [|done].
    by destruct (initiate_finish_polygon label s) as [[? ?] ?].
Qed.

Lemma exec_prev_slice_boundary s :
  current_slice s = 0 → prev_slice s = (tt, s, []).
Proof. intros Hc. unfold prev_slice, mbind, M_bind, get. by rewrite Hc. Qed.

Lemma exec_next_slice_boundary s :
  (data_shape s).1 - 1 ≤ current_slice s → next_slice s = (tt, s, []).
Proof.
  intros Hc. unfold next_slice, mbind, M_bind, get.
  by rewrite (proj2 (Nat.ltb_ge _ _)) by done.
Qed.

Lemma exec_save_labels s : exec save_labels s = exec save_current_slice s.
Proof. reflexivity. Qed.

End HandlerEquations.

(** ** The encoded array *)

Lemma set_pixel_shape (shape : nat * nat) (a : LabelMask) (r c : nat) (v : Z) :
  mask_has_shape shape a → mask_has_shape shape (set_pixel a r c v).
Proof.
  intros [Hlen Hrows]. unfold set_pixel. split.
  - by rewrite length_alter.
  - apply Forall_alter; [done|]. intros row _ Hrow. by rewrite length_insert.
Qed.

Lemma assign_indexed_shape (shape : nat * nat) (rr cc : list nat) (v : Z) (a : LabelMask) :
  mask_has_shape shape a → mask_has_shape shape (assign_indexed a rr cc v).
Proof.
  unfold assign_indexed. generalize (zip rr cc). intros ps. revert a.
  induction ps as [|[r c] ps IH]; intros a Ha; [done|].
  simpl. apply IH. by apply set_pixel_shape.
Qed.

Lemma np_zeros_shape (shape : nat * nat) : mask_has_shape shape (np_zeros shape).
Proof.
  unfold np_zeros. split; [apply length_replicate|].
  apply Forall_replicate, length_replicate.
Qed.

Lemma set_pixel_values (P : Z → Prop) (a : LabelMask) (r c : nat) (v : Z) :
  P v → Forall (Forall P) a → Forall (Forall P) (set_pixel a r c v).
Proof.
  intros Hv Ha. unfold set_pixel. apply Forall_alter; [done|].
  intros row _ Hrow. by apply Forall_insert.
Qed.

Lemma assign_indexed_values (P : Z → Prop) (rr cc : list nat) (v : Z) (a : LabelMask) :
  P v → Forall (Forall P) a → Forall (Forall P) (assign_indexed a rr cc v).
Proof.
  intros Hv. unfold assign_indexed. generalize (zip rr cc). intros ps. revert a.
  induction ps as [|[r c] ps IH]; intros a Ha; [done|].
  simpl. apply IH. by apply set_pixel_values.
Qed.

(** Two arrays of the same shape with the same pixels are the same array. *)
Lemma mask_ext (shape : nat * nat) (a b : LabelMask) :
  mask_has_shape shape a → mask_has_shape shape b →
  (∀ r c, get_pixel a r c = get_pixel b r c) → a = b.
Proof.
  intros [Hla Hra] [Hlb Hrb] Hpix. apply list_eq. intros r.
  destruct (a !! r) as [ra|] eqn:Ha; destruct (b !! r) as [rb|] eqn:Hb.
  - f_equal. apply list_eq. intros c.
    specialize (Hpix r c). unfold get_pixel in Hpix. by rewrite Ha, Hb in Hpix.
  - apply lookup_lt_Some in Ha. apply lookup_ge_None in Hb. lia.
  - apply lookup_lt_Some in Hb. apply lookup_ge_None in Ha. lia.
  - done.
Qed.

Section EncodedArray.
Context {coord : Type} {SK : Skimage coord}.
Implicit Types (polys : list (list (@Point coord) * Z)) (shape : nat * nat).

Lemma encode_polygons_shape polys shape :
  mask_has_shape shape (encode_polygons polys shape).
Proof.
  unfold encode_polygons. generalize (np_zeros_shape shape).
  generalize (np_zeros shape). intros a Ha. revert a Ha.
  induction polys as [|[pts l] polys IH]; intros a Ha; [done|].
  simpl. apply IH.
  destruct (polygon (map snd pts) (map fst pts) shape) as [rr cc].
  by apply assign_indexed_shape.
Qed.

Lemma encode_polygons_values (P : Z → Prop) polys shape :
  P 0%Z → Forall (fun pl => P pl.2) polys →
  Forall (Forall P) (encode_polygons polys shape).
Proof.
  intros H0 Hpolys. unfold encode_polygons.
  assert (Hz : Forall (Forall P) (np_zeros shape)).
  { unfold np_zeros. by do 2 apply Forall_replicate. }
  revert Hz. generalize (np_zeros shape). intros a Ha. revert a Ha.
  induction Hpolys as [|[pts l] polys Hl Hpolys IH]; intros a Ha; [done|].
  simpl. apply IH.
  destruct (polygon (map snd pts) (map fst pts) shape) as [rr cc].
  by apply assign_indexed_values.
Qed.

(** X1. Whatever index arrays [skimage.draw.polygon] returns, the array
    [save_current_slice] builds has exactly [shape.1] rows of [shape.2]
    values, and each value is 0 or the label of one of the polygons. *)
Theorem encode_shape_and_values polys shape :
  mask_has_shape shape (encode_polygons polys shape) ∧
  Forall (Forall (fun v => v = 0%Z ∨ v ∈ map snd polys))
         (encode_polygons polys shape).
Proof.
  split; [apply encode_polygons_shape|].
  apply encode_polygons_values; [by left|].
  apply Forall_forall. intros pl Hpl. right.
  apply list_elem_of_In, in_map, list_elem_of_In, Hpl.
Qed.

(** X2. A pixel outside the array has no value, a pixel of the array that
    no polygon's raster contains is 0, and a pixel of the array in the
    raster of a polygon that no later polygon covers has that polygon's
    label. *)
Theorem encode_pixel_cases polys shape (r c : nat) :
  (¬ (r < shape.1 ∧ c < shape.2) →
   get_pixel (encode_polygons polys shape) r c = None) ∧
  (r < shape.1 → c < shape.2 →
   (∀ pl, pl ∈ polys → (r, c) ∉ raster pl.1 shape) →
   get_pixel (encode_polygons polys shape) r c = Some 0%Z) ∧
  (∀ front back (P : list (@Point coord)) (l : Z),
     r < shape.1 → c < shape.2 →
     polys = front ++ (P, l) :: back →
     (r, c) ∈ raster P shape →
     (∀ pl, pl ∈ back → (r, c) ∉ raster pl.1 shape) →
     get_pixel (encode_polygons polys shape) r c = Some l).
Proof.
  split; [|split].
  - intros Hout. by rewrite get_pixel_encode, decide_False.
  - intros Hr Hc Hnone. rewrite get_pixel_encode, decide_True by done.
    unfold top_label.
    replace (filter _ polys) with (@nil (list (@Point coord) * Z)); [done|].
    symmetry. induction polys as [|pl polys IH]; [done|].
    rewrite filter_cons_False by (apply Hnone, list_elem_of_here).
    apply IH. intros pl' Hpl'. by apply Hnone, list_elem_of_further.
  - intros front back P l Hr Hc -> HP Hback.
    rewrite get_pixel_encode, decide_True by done.
    by rewrite (top_label_last_cover front back P l).
Qed.

(** X3. Appending a polygon to the list changes the encoded array only
    inside that polygon's raster: there the value becomes its label, and
    every other pixel keeps the value it had without the polygon. *)
Theorem encode_append_frame polys (P : list (@Point coord)) (l : Z) shape (r c : nat) :
  ((r, c) ∉ raster P shape →
   get_pixel (encode_polygons (polys ++ [(P, l)]) shape) r c
   = get_pixel (encode_polygons polys shape) r c) ∧
  ((r, c) ∈ raster P shape → r < shape.1 → c < shape.2 →
   get_pixel (encode_polygons (polys ++ [(P, l)]) shape) r c = Some l).
Proof.
  split.
  - intros Hout. rewrite !get_pixel_encode. unfold top_label.
    rewrite filter_app, filter_cons_False, filter_nil, app_nil_r by done.
    done.
  - intros Hin Hr Hc. rewrite get_pixel_encode, decide_True by done.
    rewrite (top_label_last_cover polys [] P l); [done | done |].
    intros pl Hpl. by apply elem_of_nil in Hpl.
Qed.

End EncodedArray.

Lemma last_fmap_agree {A B} (f : A → B) (l1 l2 : list A) :
  l1 ≡ₚ l2 →
  (∀ x y, x ∈ l1 → y ∈ l1 → f x = f y) →
  f <$> last l1 = f <$> last l2.
Proof.
  intros Hperm Hsame.
  destruct (last l1) as [x|] eqn:H1; destruct (last l2) as [y|] eqn:H2; simpl.
  - f_equal. apply Hsame.
    + apply last_Some in H1 as [l ->]. apply elem_of_app. right. apply list_elem_of_here.
    + rewrite Hperm. apply last_Some in H2 as [l ->].
      apply elem_of_app. right. apply list_elem_of_here.
  - apply last_None in H2. subst l2. apply Permutation_nil_r in Hperm.
    subst l1. done.
  - apply last_None in H1. subst l1. apply Permutation_nil_l in Hperm.
    subst l2. done.
  - done.
Qed.

Section EncodeOrder.
Context {coord : Type} {SK : Skimage coord}.
Implicit Types (polys : list (list (@Point coord) * Z)) (shape : nat * nat).

(** X4. When any two polygons of the list whose rasters share a pixel carry
    the same label, the encoded array does not depend on the order of the
    list: the order matters only where polygons of different classes
    overlap. *)
Theorem encode_order_irrelevant_without_conflict polys polys' shape :
  polys ≡ₚ polys' →
  (∀ pl1 pl2 r c, pl1 ∈ polys → pl2 ∈ polys →
     (r, c) ∈ raster pl1.1 shape → (r, c) ∈ raster pl2.1 shape →
     pl1.2 = pl2.2) →
  encode_polygons polys shape = encode_polygons polys' shape.
Proof.
  intros Hperm Hagree.
  apply (mask_ext shape); try apply encode_polygons_shape.
  intros r c. rewrite !get_pixel_encode. case_decide; [|done].
  f_equal. f_equal. unfold top_label. apply last_fmap_agree.
  - by rewrite Hperm.
  - intros x y [Hx Hx']%list_elem_of_filter [Hy Hy']%list_elem_of_filter.
    by apply (Hagree x y r c).
Qed.

End EncodeOrder.

Lemma encode_order_irrelevant_without_conflict_witness :
  [ (square_a, 1%Z); (square_b, 1%Z) ] ≡ₚ [ (square_b, 1%Z); (square_a, 1%Z) ] ∧
  encode_polygons (SK := box_skimage) [ (square_a, 1%Z); (square_b, 1%Z) ] (4, 5)
  = encode_polygons (SK := box_skimage) [ (square_b, 1%Z); (square_a, 1%Z) ] (4, 5).
Proof.
  assert (Hperm : [ (square_a, 1%Z); (square_b, 1%Z) ]
                  ≡ₚ [ (square_b, 1%Z); (square_a, 1%Z) ]) by apply Permutation_swap.
  split; [exact Hperm|].
  apply (encode_order_irrelevant_without_conflict (SK := box_skimage) _ _ (4, 5) Hperm).
  intros pl1 pl2 r c H1 H2 _ _.
  apply elem_of_cons in H1 as [->|H1]; [|apply list_elem_of_singleton in H1 as ->];
    (apply elem_of_cons in H2 as [->|H2]; [|apply list_elem_of_singleton in H2 as ->]);
    reflexivity.
Defined.

Lemma encode_pixel_cases_witness :
  get_pixel (encode_polygons (SK := box_skimage)
               [ (square_a, 1%Z); (square_b, 2%Z) ] (4, 5)) 4 0 = None ∧
  get_pixel (encode_polygons (SK := box_skimage)
               [ (square_a, 1%Z); (square_b, 2%Z) ] (4, 5)) 0 0 = Some 0%Z ∧
  get_pixel (encode_polygons (SK := box_skimage)
               [ (square_a, 1%Z); (square_b, 2%Z) ] (4, 5)) 1 1 = Some 1%Z.
Proof.
  destruct (encode_pixel_cases (SK := box_skimage)
              [ (square_a, 1%Z); (square_b, 2%Z) ] (4, 5) 4 0) as (Hout & _ & _).
  destruct (encode_pixel_cases (SK := box_skimage)
              [ (square_a, 1%Z); (square_b, 2%Z) ] (4, 5) 0 0) as (_ & Hbg & _).
  destruct (encode_pixel_cases (SK := box_skimage)
              [ (square_a, 1%Z); (square_b, 2%Z) ] (4, 5) 1 1) as (_ & _ & Hcov).
  split; [apply Hout; simpl; lia|].
  split.
  - apply Hbg; [simpl; lia | simpl; lia |].
    intros pl Hpl.
    apply elem_of_cons in Hpl as [->|Hpl];
      [|apply list_elem_of_singleton in Hpl as ->];
      apply (bool_decide_unpack _); vm_compute; exact I.
  - apply (Hcov [] [ (square_b, 2%Z) ] square_a 1%Z);
      [simpl; lia | simpl; lia | reflexivity | |].
    + apply (bool_decide_unpack _); vm_compute; exact I.
    + intros pl Hpl. apply list_elem_of_singleton in Hpl as ->.
      apply (bool_decide_unpack _); vm_compute; exact I.
Defined.

Lemma encode_append_frame_witness :
  (((0, 0) ∉ raster (SK := box_skimage) square_b (4, 5)) ∧
   get_pixel (encode_polygons (SK := box_skimage)
                ([ (square_a, 1%Z) ] ++ [ (square_b, 2%Z) ]) (4, 5)) 0 0
   = get_pixel (encode_polygons (SK := box_skimage) [ (square_a, 1%Z) ] (4, 5)) 0 0) ∧
  ((2, 2) ∈ raster (SK := box_skimage) square_b (4, 5) ∧
   get_pixel (encode_polygons (SK := box_skimage)
                ([ (square_a, 1%Z) ] ++ [ (square_b, 2%Z) ]) (4, 5)) 2 2 = Some 2%Z).
Proof.
  assert (Hout : (0, 0) ∉ raster (SK := box_skimage) square_b (4, 5))
    by (apply (bool_decide_unpack _); vm_compute; exact I).
  assert (Hin : (2, 2) ∈ raster (SK := box_skimage) square_b (4, 5))
    by (apply (bool_decide_unpack _); vm_compute; exact I).
  split.
  - split; [exact Hout|].
    exact (proj1 (encode_append_frame (SK := box_skimage)
                    [ (square_a, 1%Z) ] square_b 2%Z (4, 5) 0 0) Hout).
  - split; [exact Hin|].
    apply (proj2 (encode_append_frame (SK := box_skimage)
                    [ (square_a, 1%Z) ] square_b 2%Z (4, 5) 2 2) Hin); simpl; lia.
Defined.

(** ** Decoding, continued *)

Section DecodeMore.
Context {coord : Type} {SK : Skimage coord}.
Implicit Types (label_array : LabelMask).

Lemma decode_mask_blank label_array :
  Forall (Forall (fun v => v = 0%Z)) label_array → decode_mask label_array = [].
Proof.
  intros Hzero. unfold decode_mask.
  assert (Hu : Forall (fun v => v = 0%Z) (np_unique label_array)).
  { apply Forall_forall. intros v (row & Hrow & Hv)%np_unique_elem.
    eapply Forall_forall in Hzero; [|exact Hrow].
    by eapply Forall_forall in Hzero; [|exact Hv]. }
  induction Hu as [|v vs -> _ IH]; [done|]. simpl. exact IH.
Qed.

(** X5. Decoding invents no class code: the label of every decoded pair is
    a non-zero value that occurs in the array; and an array holding only
    zeros decodes to the empty list. *)
Theorem decode_labels_from_array label_array :
  Forall (fun pl => pl.2 ≠ 0%Z ∧ ∃ row, row ∈ label_array ∧ pl.2 ∈ row)
         (decode_mask label_array) ∧
  (Forall (Forall (fun v => v = 0%Z)) label_array → decode_mask label_array = []).
Proof.
  split; [|apply decode_mask_blank].
  apply Forall_forall. intros [p l] (Hl & Hne & _)%decode_mask_elem.
  simpl. split; [done|]. by apply np_unique_elem.
Qed.

End DecodeMore.

Lemma decode_labels_from_array_witness :
  Forall (Forall (fun v => v = 0%Z)) (np_zeros (4, 5)) ∧
  decode_mask (SK := box_skimage) (np_zeros (4, 5)) = [].
Proof.
  assert (Hz : Forall (Forall (fun v => v = 0%Z)) (np_zeros (4, 5)))
    by (unfold np_zeros; do 2 apply Forall_replicate; reflexivity).
  split; [exact Hz|].
  exact (proj2 (decode_labels_from_array (SK := box_skimage) (np_zeros (4, 5))) Hz).
Defined.

(** ** Drawing *)

Section Drawing.
Context {coord : Type}.
Implicit Types (s : DICOMLabeler coord) (label : option Z).

Lemma in_bone_colors_true (l : Z) s :
  in_bone_colors l s = true ↔ l ∈ registry_keys s.
Proof.
  unfold in_bone_colors, registry_keys.
  rewrite existsb_exists, list_elem_of_In, in_map_iff. split.
  - intros ([k v] & Hin & Hk). apply Z.eqb_eq in Hk. simpl in Hk. subst k.
    by exists (l, v).
  - intros ([k v] & Hk & Hin). simpl in Hk. subst k.
    exists (l, v). split; [done|]. apply Z.eqb_refl.
Qed.

(** X6. A dialog answer that is a key of [bone_colors] appends the
    in-progress polygon, with that label, at the end of the polygon list,
    empties the in-progress polygon and ends in Browsing; the label volume
    and the slice index are not touched by the commit. *)
Theorem assign_recognized_commits s (l : Z) :
  state_of s = AwaitingLabel →
  l ∈ registry_keys s →
  let s' := exec (finish_polygon_close (Some l)) s in
  polygons s' = polygons s ++ [(current_polygon s, l)] ∧
  current_polygon s' = [] ∧
  state_of s' = Browsing ∧
  slice_labels s' = slice_labels s ∧
  current_slice s' = current_slice s.
Proof.
  intros _ Hl s'. subst s'. rewrite exec_finish_polygon_close.
  by rewrite (proj2 (in_bone_colors_true l s) Hl).
Qed.

Lemma only_draws_refl s : only_draws s s.
Proof. unfold only_draws. tauto. Qed.

Lemma only_draws_set_current_polygon s cp : only_draws s (set_current_polygon cp s).
Proof. unfold only_draws. simpl. tauto. Qed.

Lemma only_draws_initiate_finish_polygon s label :
  only_draws s (exec (initiate_finish_polygon label) s).
Proof.
  rewrite exec_initiate_finish_polygon.
  destruct (waiting_for_label s) eqn:Hw; [apply only_draws_refl|].
  destruct (Nat.ltb_spec (length (current_polygon s)) 3) as [|Hlen];
    [apply only_draws_refl|].
  rewrite exec_finish_polygon_close.
  destruct label as [l|]; [|unfold only_draws; simpl; rewrite Hw; tauto].
  destruct (in_bone_colors l (set_waiting_for_label true s)) eqn:Hin;
    [|unfold only_draws; simpl; rewrite Hw; tauto].
  apply in_bone_colors_true in Hin.
  unfold only_draws. simpl. rewrite Hw. repeat split. right. by exists l.
Qed.

Lemma only_draws_on_click s inaxes button (x y : coord) label :
  only_draws s (exec (on_click inaxes button x y label) s).
Proof.
  rewrite exec_on_click.
  destruct (waiting_for_label s); [apply only_draws_refl|].
  destruct (negb inaxes); [apply only_draws_refl|].
  destruct (Z.eqb button 1); [apply only_draws_set_current_polygon|].
  apply only_draws_initiate_finish_polygon.
Qed.

Lemma only_draws_on_key_press s key label :
  only_draws s (exec (on_key_press key label) s).
Proof.
  rewrite exec_on_key_press.
  destruct (waiting_for_label s); [apply only_draws_refl|].
  destruct (_ || _); [apply only_draws_set_current_polygon|].
  destruct (String.eqb key "c"); [apply only_draws_set_current_polygon|].
  destruct (String.eqb key "enter"); [|apply only_draws_refl].
  apply only_draws_initiate_finish_polygon.
Qed.

(** X7. The handlers that draw never write the label volume, the slice
    index, the shape or the registry, whatever the event and the session;
    they return with [waiting_for_label] as they found it, and the only
    change they make to the polygon list is to append the in-progress
    polygon, of at least 3 points, under a registry key. *)
Theorem drawing_handlers_frame s inaxes button (x y : coord) key label :
  only_draws s (exec (on_click inaxes button x y label) s) ∧
  only_draws s (exec (on_key_press key label) s) ∧
  only_draws s (exec (initiate_finish_polygon label) s).
Proof.
  split; [apply only_draws_on_click|].
  split; [apply only_draws_on_key_press|].
  apply only_draws_initiate_finish_polygon.
Qed.

(** X8. Outside AwaitingLabel, a left click inside the axes followed by
    Delete or Backspace gives back the session as it was: the key removes
    exactly the point the click appended. *)
Theorem click_then_backspace_restores s (x y : coord) key label label' :
  state_of s ≠ AwaitingLabel →
  key = "delete" ∨ key = "backspace" →
  exec (on_key_press key label') (exec (on_click true 1%Z x y label) s) = s.
Proof.
  intros Hst Hkey.
  assert (Hw : waiting_for_label s = false).
  { unfold state_of in Hst. by destruct (waiting_for_label s). }
  rewrite exec_on_click, Hw. simpl.
  rewrite exec_on_key_press. simpl. rewrite Hw.
  assert (Hk : String.eqb key "delete" || String.eqb key "backspace" = true)
    by (destruct Hkey as [-> | ->]; reflexivity).
  rewrite Hk, removelast_last. by destruct s.
Qed.

(** X9. While [waiting_for_label] is set, a mouse press, a key press and the
    Finish button change no field and produce no output at all. *)
Theorem awaiting_label_blocks_input s inaxes button (x y : coord) key label :
  state_of s = AwaitingLabel →
  on_click inaxes button x y label s = (tt, s, []) ∧
  on_key_press key label s = (tt, s, []) ∧
  initiate_finish_polygon label s = (tt, s, []).
Proof.
  intros Hst.
  assert (Hw : waiting_for_label s = true).
  { unfold state_of in Hst. destruct (waiting_for_label s); [done|].
    by destruct (current_polygon s). }
  unfold on_click, on_key_press, initiate_finish_polygon, finish_polygon_open.
  unfold mbind, M_bind, get. by rewrite Hw.
Qed.

(** X10. Inside the axes and outside AwaitingLabel, every mouse button other
    than the left one does what the Finish button does; a press outside the
    axes changes nothing. *)
Theorem other_buttons_finish s button (x y : coord) label :
  state_of s ≠ AwaitingLabel →
  (button ≠ 1%Z →
   exec (on_click true button x y label) s = exec (initiate_finish_polygon label) s) ∧
  exec (on_click false button x y label) s = s.
Proof.
  intros Hst.
  assert (Hw : waiting_for_label s = false).
  { unfold state_of in Hst. by destruct (waiting_for_label s). }
  rewrite !exec_on_click, Hw. simpl. split; [|done].
  intros Hb. by rewrite (proj2 (Z.eqb_neq _ _) Hb).
Qed.

End Drawing.

Lemma assign_recognized_commits_witness :
  state_of awaiting_square = AwaitingLabel ∧
  2%Z ∈ registry_keys awaiting_square ∧
  polygons (exec (finish_polygon_close (Some 2%Z)) awaiting_square)
  = [ (square_a, 2%Z) ] ∧
  state_of (exec (finish_polygon_close (Some 2%Z)) awaiting_square) = Browsing.
Proof.
  assert (Hkey : 2%Z ∈ registry_keys awaiting_square)
    by (apply (bool_decide_unpack _); vm_compute; exact I).
  split; [reflexivity | split; [exact Hkey |]].
  destruct (assign_recognized_commits awaiting_square 2%Z eq_refl Hkey)
    as (Hp & _ & Hst & _).
  split; [exact Hp | exact Hst].
Defined.

Lemma click_then_backspace_restores_witness :
  state_of drawing_point ≠ AwaitingLabel ∧
  exec (on_key_press "backspace" None)
       (exec (on_click true 1%Z 3%Z 4%Z None) drawing_point) = drawing_point.
Proof.
  assert (Hst : state_of drawing_point ≠ AwaitingLabel) by (vm_compute; discriminate).
  split; [exact Hst|].
  apply (click_then_backspace_restores drawing_point 3%Z 4%Z "backspace" None None Hst).
  right. reflexivity.
Defined.

Lemma awaiting_label_blocks_input_witness :
  state_of awaiting_square = AwaitingLabel ∧
  on_click true 1%Z 3%Z 4%Z None awaiting_square = (tt, awaiting_square, []) ∧
  on_key_press "c" None awaiting_square = (tt, awaiting_square, []).
Proof.
  split; [reflexivity|].
  destruct (awaiting_label_blocks_input awaiting_square true 1%Z 3%Z 4%Z "c" None eq_refl)
    as (Hclick & Hkey & _).
  split; [exact Hclick | exact Hkey].
Defined.

Lemma other_buttons_finish_witness :
  state_of drawing_square ≠ AwaitingLabel ∧
  3%Z ≠ 1%Z ∧
  exec (on_click true 3%Z 0%Z 0%Z (Some 1%Z)) drawing_square
  = exec (initiate_finish_polygon (Some 1%Z)) drawing_square.
Proof.
  assert (Hst : state_of drawing_square ≠ AwaitingLabel) by (vm_compute; discriminate).
  assert (Hb : 3%Z ≠ 1%Z) by lia.
  split; [exact Hst | split; [exact Hb |]].
  exact (proj1 (other_buttons_finish drawing_square 3%Z 0%Z 0%Z (Some 1%Z) Hst) Hb).
Defined.

(** ** Navigation and saving, continued *)

Section NavigationMore.
Context {coord : Type} {SK : Skimage coord}.
Implicit Types (s : DICOMLabeler coord).

(** X11. At the first slice [prev_slice], and at the last slice
    [next_slice], do nothing at all: no field changes, the active slice is
    not encoded, and nothing is drawn or printed. *)
Theorem navigate_at_boundary_does_nothing s :
  (current_slice s = 0 → prev_slice s = (tt, s, [])) ∧
  (current_slice s + 1 = (data_shape s).1 → next_slice s = (tt, s, [])).
Proof.
  split; [apply exec_prev_slice_boundary|].
  intros Hlast. apply exec_next_slice_boundary. lia.
Qed.

(** X12. Going to the next slice and back: the index is what it was, the
    slice left first holds the encoding of its polygon list, the slice
    visited holds the encoding of its own decoding, every other slice and
    the in-progress polygon are untouched, and the polygon list is the
    decoding of what was encoded on leaving. *)
Theorem next_then_prev s :
  well_formed s →
  current_slice s + 1 < (data_shape s).1 →
  let i := current_slice s in
  let shape := (data_shape s).2 in
  let s' := exec prev_slice (exec next_slice s) in
  current_slice s' = i ∧
  slice_labels s' !! i = Some (encode_polygons (polygons s) shape) ∧
  slice_labels s' !! (i + 1)
  = Some (encode_polygons (decode_mask (slice_labels s !!! (i + 1))) shape) ∧
  (∀ j, j ≠ i → j ≠ i + 1 → slice_labels s' !! j = slice_labels s !! j) ∧
  polygons s' = decode_mask (encode_polygons (polygons s) shape) ∧
  current_polygon s' = current_polygon s.
Proof.
  intros [Hlen Hcur] Hnext i shape s'. subst i shape s'.
  rewrite (exec_next_slice s) by lia.
  rewrite exec_load_slice_data, exec_save_current_slice. simpl.
  rewrite list_lookup_total_insert_ne by lia.
  rewrite exec_prev_slice by (simpl; lia).
  rewrite exec_load_slice_data, exec_save_current_slice. simpl.
  replace (current_slice s + 1 - 1) with (current_slice s) by lia.
  repeat split.
  - rewrite list_lookup_insert_ne by lia.
    apply list_lookup_insert_eq. lia.
  - apply list_lookup_insert_eq. rewrite length_insert. lia.
  - intros j Hj Hj'. by rewrite !list_lookup_insert_ne by lia.
  - rewrite list_lookup_total_insert_ne by lia.
    rewrite list_lookup_total_insert_eq by lia. done.
Qed.

(** X13. The in-progress polygon is never encoded: the label volume and the
    polygon list that [prev_slice], [next_slice] and [save_labels] leave
    behind are the same whatever the in-progress polygon is. *)
Theorem in_progress_polygon_never_encoded s (cp : list (@Point coord)) :
  (slice_labels (exec prev_slice (set_current_polygon cp s))
   = slice_labels (exec prev_slice s) ∧
   polygons (exec prev_slice (set_current_polygon cp s))
   = polygons (exec prev_slice s)) ∧
  (slice_labels (exec next_slice (set_current_polygon cp s))
   = slice_labels (exec next_slice s) ∧
   polygons (exec next_slice (set_current_polygon cp s))
   = polygons (exec next_slice s)) ∧
  (slice_labels (exec save_labels (set_current_polygon cp s))
   = slice_labels (exec save_labels s) ∧
   polygons (exec save_labels (set_current_polygon cp s))
   = polygons (exec save_labels s)).
Proof.
  split; [|split].
  - unfold prev_slice. run_handler. by destruct (0 <? current_slice s).
  - unfold next_slice. run_handler.
    by destruct (current_slice s <? (data_shape s).1 - 1).
  - done.
Qed.

(** X14. Saving twice in a row: the second [save_labels] leaves the session
    as the first left it and hands over the same volume and registry. *)
Theorem save_labels_idempotent s :
  exec save_labels (exec save_labels s) = exec save_labels s ∧
  effects save_labels (exec save_labels s) = effects save_labels s.
Proof.
  assert (Hexec : exec save_labels (exec save_labels s) = exec save_labels s).
  { rewrite !exec_save_labels, !exec_save_current_slice. simpl.
    unfold set_slice_labels. simpl. by rewrite list_insert_insert_eq. }
  split; [exact Hexec|].
  unfold effects, save_labels, save_current_slice. run_handler.
  by rewrite list_insert_insert_eq.
Qed.

End NavigationMore.

Lemma next_then_prev_witness :
  well_formed labelled_squares ∧
  current_slice labelled_squares + 1 < (data_shape labelled_squares).1 ∧
  current_slice (exec (prev_slice (SK := box_skimage))
                   (exec (next_slice (SK := box_skimage)) labelled_squares)) = 0 ∧
  slice_labels (exec (prev_slice (SK := box_skimage))
                  (exec (next_slice (SK := box_skimage)) labelled_squares)) !! 0
  = Some (encode_polygons (SK := box_skimage) (polygons labelled_squares) (4, 5)).
Proof.
  assert (Hwf : well_formed labelled_squares) by (split; vm_compute; lia).
  assert (Hnext : current_slice labelled_squares + 1 < (data_shape labelled_squares).1)
    by (vm_compute; lia).
  split; [exact Hwf | split; [exact Hnext |]].
  destruct (next_then_prev (SK := box_skimage) labelled_squares Hwf Hnext)
    as (Hi & H0 & _).
  split; [exact Hi | exact H0].
Defined.

Lemma navigate_at_boundary_does_nothing_witness :
  current_slice labelled_squares = 0 ∧
  prev_slice (SK := box_skimage) labelled_squares = (tt, labelled_squares, []).
Proof.
  split; [reflexivity|].
  exact (proj1 (navigate_at_boundary_does_nothing (SK := box_skimage) labelled_squares)
               eq_refl).
Defined.

(** ** Invariants along a run of events *)

Section Invariants.
Context {coord : Type} {SK : Skimage coord}.
Implicit Types (s : DICOMLabeler coord) (e : event coord).

Lemma exec_run_cons e (events : list (event coord)) s :
  exec (run (e :: events)) s = exec (run events) (exec (handle e) s).
Proof.
  unfold run, exec. cbn [for_each]. unfold mbind, M_bind.
  destruct (handle e s) as [[u s1] e1]. simpl.
  by destruct (for_each events handle s1) as [[u' s2] e2].
Qed.

Lemma run_invariant (I : DICOMLabeler coord → Prop) :
  (∀ e s, I s → I (exec (handle e) s)) →
  ∀ events s, I s → I (exec (run events) s).
Proof.
  intros Hstep events. induction events as [|e events IH]; intros s Hs; [done|].
  rewrite exec_run_cons. by apply IH, Hstep.
Qed.

Lemma exec_prev_slice_cases s :
  exec prev_slice s =
  if 0 <? current_slice s
  then exec load_slice_data
         (set_current_slice (current_slice s - 1) (exec save_current_slice s))
  else s.
Proof.
  destruct (Nat.ltb_spec 0 (current_slice s)) as [Hpos|Hzero].
  - by apply exec_prev_slice.
  - unfold exec. rewrite exec_prev_slice_boundary by lia. done.
Qed.

Lemma exec_next_slice_cases s :
  exec next_slice s =
  if current_slice s <? (data_shape s).1 - 1
  then exec load_slice_data
         (set_current_slice (current_slice s + 1) (exec save_current_slice s))
  else s.
Proof.
  destruct (Nat.ltb_spec (current_slice s) ((data_shape s).1 - 1)) as [Hlt|Hge].
  - by apply exec_next_slice.
  - unfold exec. rewrite exec_next_slice_boundary by lia. done.
Qed.

Lemma session_invariant_only_draws s s' :
  only_draws s s' → session_invariant s → session_invariant s'.
Proof.
  intros (Hvol & Hcur & Hshape & Hreg & Hwait & Hpolys)
         ((Hlen & Hidx) & (Hlen' & Hmasks) & (Hpl & Hvals) & Hw).
  unfold session_invariant, well_formed, volume_shaped, labels_known, registry_keys.
  rewrite Hvol, Hcur, Hshape, Hreg, Hwait.
  repeat split; try done.
  destruct Hpolys as [-> | (l & Hl & _ & -> & _)]; [done|].
  apply Forall_app. split; [done|]. by apply Forall_singleton.
Qed.

Lemma session_invariant_save_current_slice s :
  session_invariant s → session_invariant (exec save_current_slice s).
Proof.
  intros ((Hlen & Hidx) & (Hlen' & Hmasks) & (Hpl & Hvals) & Hw).
  rewrite exec_save_current_slice.
  unfold session_invariant, well_formed, volume_shaped, labels_known, registry_keys.
  simpl. rewrite length_insert. repeat split; try done.
  - apply Forall_insert; [done|]. apply encode_polygons_shape.
  - apply Forall_insert; [done|]. apply encode_polygons_values; [by left|].
    eapply Forall_impl; [exact Hpl|]. simpl. intros pl Hin. by right.
Qed.

Lemma session_invariant_enter_slice s (k : nat) :
  k < (data_shape s).1 →
  session_invariant s →
  session_invariant (exec load_slice_data (set_current_slice k s)).
Proof.
  intros Hk ((Hlen & Hidx) & (Hlen' & Hmasks) & (Hpl & Hvals) & Hw).
  rewrite exec_load_slice_data.
  unfold session_invariant, well_formed, volume_shaped, labels_known, registry_keys.
  simpl. repeat split; try done.
  apply Forall_forall. intros [p l] (Hl & Hne & _)%decode_mask_elem. simpl.
  apply np_unique_elem in Hl as (row & Hrow & Hv).
  assert (Hmask : slice_labels s !!! k ∈ slice_labels s)
    by (apply list_elem_of_lookup_total_2; lia).
  eapply Forall_forall in Hvals; [|exact Hmask].
  eapply Forall_forall in Hvals; [|exact Hrow].
  eapply Forall_forall in Hvals; [|exact Hv].
  by destruct Hvals.
Qed.

Lemma session_invariant_handle e s :
  session_invariant s → session_invariant (exec (handle e) s).
Proof.
  intros Hs. destruct e as [inaxes button x y label|key label|label| | |]; simpl.
  - eapply session_invariant_only_draws; [apply only_draws_on_click | done].
  - eapply session_invariant_only_draws; [apply only_draws_on_key_press | done].
  - eapply session_invariant_only_draws;
      [apply only_draws_initiate_finish_polygon | done].
  - rewrite exec_prev_slice_cases.
    destruct (Nat.ltb_spec 0 (current_slice s)) as [Hpos|_]; [|done].
    pose proof Hs as ((_ & Hidx) & _).
    apply session_invariant_enter_slice; [simpl; lia|].
    by apply session_invariant_save_current_slice.
  - rewrite exec_next_slice_cases.
    destruct (Nat.ltb_spec (current_slice s) ((data_shape s).1 - 1)) as [Hlt|_];
      [|done].
    apply session_invariant_enter_slice; [simpl; lia|].
    by apply session_invariant_save_current_slice.
  - rewrite exec_save_labels. by apply session_invariant_save_current_slice.
Qed.

Lemma session_invariant_init (S0 H W : nat) :
  0 < S0 → session_invariant (coord := coord) (init (S0, (H, W))).
Proof.
  intros HS. unfold session_invariant, well_formed, volume_shaped, labels_known.
  simpl. rewrite length_replicate. repeat split; try done.
  - apply Forall_replicate, np_zeros_shape.
  - apply Forall_replicate. unfold np_zeros. simpl.
    do 2 apply Forall_replicate. by left.
Qed.

Lemma registry_and_shape_handle e s :
  bone_colors (exec (handle e) s) = bone_colors s ∧
  data_shape (exec (handle e) s) = data_shape s.
Proof.
  destruct e as [inaxes button x y label|key label|label| | |]; simpl.
  - destruct (only_draws_on_click s inaxes button x y label) as (_&_&?&?&_). done.
  - destruct (only_draws_on_key_press s key label) as (_&_&?&?&_). done.
  - destruct (only_draws_initiate_finish_polygon s label) as (_&_&?&?&_). done.
  - rewrite exec_prev_slice_cases. by destruct (0 <? current_slice s).
  - rewrite exec_next_slice_cases.
    by destruct (current_slice s <? (data_shape s).1 - 1).
  - done.
Qed.

Lemma registry_and_shape_run (events : list (event coord)) s :
  bone_colors (exec (run events) s) = bone_colors s ∧
  data_shape (exec (run events) s) = data_shape s.
Proof.
  apply (run_invariant (fun s' => bone_colors s' = bone_colors s ∧
                                  data_shape s' = data_shape s)); [|done].
  intros e s' [Hreg Hshape].
  destruct (registry_and_shape_handle e s') as [-> ->]. done.
Qed.

End Invariants.

Lemma default_keys_range (l : Z) :
  l ∈ map fst default_bone_colors → (1 ≤ l ≤ 6)%Z.
Proof. simpl. rewrite !elem_of_cons, elem_of_nil. lia. Qed.

Section Reachable.
Context {coord : Type} {SK : Skimage coord}.
Implicit Types (s : DICOMLabeler coord) (events : list (event coord)).

Lemma session_invariant_run (S0 H W : nat) events :
  0 < S0 → session_invariant (exec (run events) (init (S0, (H, W)))).
Proof.
  intros HS. apply run_invariant; [apply session_invariant_handle|].
  by apply session_invariant_init.
Qed.

(** X15. After any sequence of UI events on a session started on a series of
    at least one slice, the label volume still has the shape of the series
    (one array per slice, each of H rows of W values), the slice index is
    inside it, so [slice_labels[current_slice]] exists, and no dialog is
    pending. *)
Theorem run_keeps_volume_in_shape (S0 H W : nat) events :
  0 < S0 →
  let s' := exec (run events) (init (S0, (H, W))) in
  data_shape s' = (S0, (H, W)) ∧
  length (slice_labels s') = S0 ∧
  Forall (mask_has_shape (H, W)) (slice_labels s') ∧
  current_slice s' < S0 ∧
  is_Some (slice_labels s' !! current_slice s') ∧
  waiting_for_label s' = false.
Proof.
  intros HS s'. subst s'.
  destruct (session_invariant_run S0 H W events HS)
    as ((Hlen & Hidx) & (_ & Hmasks) & _ & Hw).
  destruct (registry_and_shape_run events (init (S0, (H, W)))) as [_ Hshape].
  rewrite Hshape in *. simpl in *.
  repeat split; try done.
  apply lookup_lt_is_Some. lia.
Qed.

(** X16. After any sequence of UI events on a fresh session, the registry is
    still the one [__init__] installed, every label in the polygon list is
    one of its keys 1..6 and every value of the label volume is 0 or one of
    them: no event can bring in an unregistered class code. *)
Theorem run_keeps_labels_in_registry (S0 H W : nat) events :
  0 < S0 →
  let s' := exec (run events) (init (S0, (H, W))) in
  bone_colors s' = default_bone_colors ∧
  Forall (fun pl => (1 ≤ pl.2 ≤ 6)%Z) (polygons s') ∧
  Forall (Forall (Forall (fun v => (0 ≤ v ≤ 6)%Z))) (slice_labels s').
Proof.
  intros HS s'. subst s'.
  destruct (session_invariant_run S0 H W events HS) as (_ & _ & (Hpl & Hvals) & _).
  destruct (registry_and_shape_run events (init (S0, (H, W)))) as [Hreg _].
  unfold registry_keys in *. rewrite Hreg in *. simpl bone_colors in *.
  split; [done|]. split.
  - eapply Forall_impl; [exact Hpl|]. intros pl. apply default_keys_range.
  - eapply Forall_impl; [exact Hvals|]. intros a Ha.
    eapply Forall_impl; [exact Ha|]. intros row Hrow.
    eapply Forall_impl; [exact Hrow|]. intros v [->|Hv]; [lia|].
    apply default_keys_range in Hv. lia.
Qed.

Lemma bone_colors_get_known s (l : Z) (fallback : string * string) :
  l ∈ registry_keys s → (l, bone_colors_get s l fallback) ∈ bone_colors s.
Proof.
  intros Hl. unfold bone_colors_get.
  destruct (find _ (bone_colors s)) as [[k v]|] eqn:Hfind.
  - apply find_some in Hfind as [Hin Hk]. simpl in Hk.
    apply Z.eqb_eq in Hk as ->. by apply list_elem_of_In.
  - exfalso. unfold registry_keys in Hl.
    apply list_elem_of_In, in_map_iff in Hl as ([k v] & Hk & Hin).
    simpl in Hk. subst k.
    apply (find_none _ _ Hfind) in Hin. simpl in Hin.
    by rewrite Z.eqb_refl in Hin.
Qed.

(** X17. [update_display] looks a polygon's colour up with the fallback
    'white'.  For a label that is no key the fallback is what it gets; but
    after any sequence of UI events on a fresh session every polygon in the
    list is drawn in the colour the registry gives its label, so the
    fallback is never used. *)
Theorem display_color_never_falls_back (S0 H W : nat) events :
  0 < S0 →
  let s' := exec (run events) (init (S0, (H, W))) in
  (∀ l, l ∉ registry_keys s' → display_color s' l = "white") ∧
  Forall (fun pl => ∃ name, (pl.2, (display_color s' pl.2, name)) ∈ default_bone_colors)
         (polygons s').
Proof.
  intros HS s'. subst s'. split.
  - intros l Hl. unfold display_color, bone_colors_get.
    destruct (find _ _) as [[k v]|] eqn:Hfind; [|done].
    exfalso. apply find_some in Hfind as [Hin Hk]. simpl in Hk.
    apply Z.eqb_eq in Hk as ->. apply Hl.
    apply list_elem_of_In, in_map_iff. by exists (l, v).
  - destruct (session_invariant_run S0 H W events HS) as (_ & _ & (Hpl & _) & _).
    destruct (registry_and_shape_run events (init (S0, (H, W)))) as [Hreg _].
    eapply Forall_impl; [exact Hpl|]. intros [p l] Hl. simpl in *.
    pose proof (bone_colors_get_known _ l ("white", "Unknown") Hl) as Hget.
    rewrite Hreg in Hget. unfold display_color.
    destruct (bone_colors_get _ l _) as [color name]. by exists name.
Qed.

End Reachable.

Example sample_run_result :
  slice_labels (exec (run (SK := box_skimage) sample_run) two_slices)
  = [ [ [0; 0; 0; 0; 0]; [0; 1; 1; 0; 0]; [0; 1; 1; 0; 0]; [0; 0; 0; 0; 0] ]%Z;
      np_zeros (4, 5) ] ∧
  polygons (exec (run (SK := box_skimage) sample_run) two_slices)
  = [ ([ (1, 1); (2, 1); (2, 2); (1, 2) ]%Z, 1%Z) ] ∧
  current_slice (exec (run (SK := box_skimage) sample_run) two_slices) = 0.
Proof. by vm_compute. Qed.

Lemma run_keeps_volume_in_shape_witness :
  0 < 2 ∧
  length (slice_labels (exec (run (SK := box_skimage) sample_run) (init (2, (4, 5))))) = 2 ∧
  current_slice (exec (run (SK := box_skimage) sample_run) (init (2, (4, 5)))) < 2.
Proof.
  assert (HS : 0 < 2) by lia.
  split; [exact HS|].
  destruct (run_keeps_volume_in_shape (SK := box_skimage) 2 4 5 sample_run HS)
    as (_ & Hlen & _ & Hidx & _).
  split; [exact Hlen | exact Hidx].
Defined.

Lemma run_keeps_labels_in_registry_witness :
  0 < 2 ∧
  Forall (fun pl : list (Z * Z) * Z => (1 ≤ pl.2 ≤ 6)%Z)
         (polygons (exec (run (SK := box_skimage) sample_run) (init (2, (4, 5))))).
Proof.
  assert (HS : 0 < 2) by lia.
  split; [exact HS|].
  destruct (run_keeps_labels_in_registry (SK := box_skimage) 2 4 5 sample_run HS)
    as (_ & Hpl & _).
  exact Hpl.
Defined.

Lemma display_color_never_falls_back_witness :
  0 < 2 ∧
  (99%Z ∉ registry_keys (exec (run (SK := box_skimage) sample_run) (init (2, (4, 5))))) ∧
  display_color (exec (run (SK := box_skimage) sample_run) (init (2, (4, 5)))) 99%Z
  = "white".
Proof.
  assert (HS : 0 < 2) by lia.
  assert (H99 : 99%Z ∉ registry_keys
                  (exec (run (SK := box_skimage) sample_run) (init (2, (4, 5)))))
    by (apply (bool_decide_unpack _); vm_compute; exact I).
  split; [exact HS | split; [exact H99 |]].
  destruct (display_color_never_falls_back (SK := box_skimage) 2 4 5 sample_run HS)
    as (Hfb & _).
  exact (Hfb 99%Z H99).
Defined.

Section Composition.
Context {coord : Type} {SK : Skimage coord}.
Implicit Types (s : DICOMLabeler coord) (events : list (event coord)).

Lemma decode_lookup_total_blank (vol : list LabelMask) (k : nat) :
  Forall (Forall (Forall (fun v => v = 0%Z))) vol →
  decode_mask (vol !!! k) = [].
Proof.
  intros Hvol. apply decode_mask_blank. rewrite list_lookup_total_alt.
  destruct (vol !! k) as [a|] eqn:Hk; simpl; [|constructor].
  eapply Forall_forall in Hvol; [exact Hvol|].
  by eapply list_elem_of_lookup_2.
Qed.

(** X18. Navigation and saving alone create no labels: on a fresh session,
    after any sequence of Previous, Next and Save the label volume is still
    all zeros and the polygon list and the in-progress polygon are empty. *)
Theorem navigation_alone_creates_no_labels (S0 H W : nat) events :
  Forall (fun e => e = PrevButton ∨ e = NextButton ∨ e = SaveButton) events →
  let s' := exec (run events) (init (S0, (H, W))) in
  slice_labels s' = replicate S0 (np_zeros (H, W)) ∧
  polygons s' = [] ∧
  current_polygon s' = [].
Proof.
  intros Hnav s'. subst s'.
  set (blank := fun s : DICOMLabeler coord =>
         data_shape s = (S0, (H, W)) ∧
         slice_labels s = replicate S0 (np_zeros (H, W)) ∧
         polygons s = [] ∧ current_polygon s = []).
  assert (Hzero : Forall (Forall (Forall (fun v => v = 0%Z)))
                         (replicate S0 (np_zeros (H, W)))).
  { unfold np_zeros. by do 3 apply Forall_replicate. }
  assert (Hsave : ∀ s, blank s → blank (exec save_current_slice s)).
  { intros s (Hsh & Hvol & Hpl & Hcp). rewrite exec_save_current_slice.
    unfold blank. simpl. rewrite Hsh, Hvol, Hpl. simpl.
    unfold encode_polygons. simpl. by rewrite insert_replicate. }
  assert (Henter : ∀ s k, blank s →
            blank (exec load_slice_data (set_current_slice k s))).
  { intros s k (Hsh & Hvol & Hpl & Hcp). rewrite exec_load_slice_data.
    unfold blank. simpl. rewrite Hvol.
    by rewrite decode_lookup_total_blank. }
  assert (Hblank : blank (exec (run events) (init (S0, (H, W))))).
  { assert (Hinit : blank (init (S0, (H, W)))) by done.
    revert Hinit. generalize (init (coord := coord) (S0, (H, W))).
    induction Hnav as [|e events He Hnav IH]; intros s Hs; [done|].
    rewrite exec_run_cons. apply IH.
    destruct He as [-> | [-> | ->]]; simpl.
    - rewrite exec_prev_slice_cases. destruct (0 <? current_slice s); [|done].
      by apply Henter, Hsave.
    - rewrite exec_next_slice_cases.
      destruct (current_slice s <? (data_shape s).1 - 1); [|done].
      by apply Henter, Hsave.
    - rewrite exec_save_labels. by apply Hsave. }
  destruct Hblank as (_ & Hvol & Hpl & Hcp). done.
Qed.

(** X19. A polygon finished under a registry key reaches the label volume
    with the next save: after the Finish button, answered with the key, and
    Save, every pixel of the active slice's array that the polygon's raster
    contains has that key as its value. *)
Theorem labelled_polygon_reaches_volume s (l : Z) (r c : nat) :
  state_of s ≠ AwaitingLabel →
  3 ≤ length (current_polygon s) →
  l ∈ registry_keys s →
  current_slice s < length (slice_labels s) →
  (r, c) ∈ raster (current_polygon s) (data_shape s).2 →
  r < (data_shape s).2.1 → c < (data_shape s).2.2 →
  let s' := exec save_labels (exec (initiate_finish_polygon (Some l)) s) in
  ∃ label_array,
    slice_labels s' !! current_slice s = Some label_array ∧
    get_pixel label_array r c = Some l ∧
    current_polygon s' = [] ∧
    polygons s' = polygons s ++ [(current_polygon s, l)].
Proof.
  intros Hst Hlen Hl Hcur Hcov Hr Hc s'. subst s'.
  assert (Hw : waiting_for_label s = false).
  { unfold state_of in Hst. by destruct (waiting_for_label s). }
  rewrite exec_initiate_finish_polygon, Hw.
  rewrite (proj2 (Nat.ltb_ge _ _)) by done.
  rewrite exec_finish_polygon_close.
  rewrite (proj2 (in_bone_colors_true l (set_waiting_for_label true s))) by done.
  rewrite exec_save_labels, exec_save_current_slice. simpl.
  eexists. split; [by apply list_lookup_insert_eq|].
  split; [|done].
  rewrite get_pixel_encode, decide_True by done.
  rewrite (top_label_last_cover (polygons s) [] (current_polygon s) l); [done|done|].
  intros pl Hpl. by apply elem_of_nil in Hpl.
Qed.

End Composition.

Lemma navigation_alone_creates_no_labels_witness :
  Forall (fun e : event Z => e = PrevButton ∨ e = NextButton ∨ e = SaveButton)
         [ NextButton; PrevButton; SaveButton ] ∧
  slice_labels (exec (run (SK := box_skimage) [ NextButton; PrevButton; SaveButton ])
                     (init (2, (4, 5))))
  = replicate 2 (np_zeros (4, 5)).
Proof.
  assert (Hnav : Forall (fun e : event Z =>
                           e = PrevButton ∨ e = NextButton ∨ e = SaveButton)
                        [ NextButton; PrevButton; SaveButton ])
    by (repeat constructor; tauto).
  split; [exact Hnav|].
  exact (proj1 (navigation_alone_creates_no_labels (SK := box_skimage) 2 4 5 _ Hnav)).
Defined.

Lemma labelled_polygon_reaches_volume_witness :
  state_of drawing_square ≠ AwaitingLabel ∧
  3 ≤ length (current_polygon drawing_square) ∧
  1%Z ∈ registry_keys drawing_square ∧
  (1, 1) ∈ raster (SK := box_skimage) (current_polygon drawing_square) (4, 5) ∧
  ∃ label_array,
    slice_labels (exec (save_labels (SK := box_skimage))
                    (exec (initiate_finish_polygon (Some 1%Z)) drawing_square)) !! 0
    = Some label_array ∧
    get_pixel label_array 1 1 = Some 1%Z.
Proof.
  assert (Hst : state_of drawing_square ≠ AwaitingLabel) by (vm_compute; discriminate).
  assert (Hlen : 3 ≤ length (current_polygon drawing_square)) by (vm_compute; lia).
  assert (Hkey : 1%Z ∈ registry_keys drawing_square)
    by (apply (bool_decide_unpack _); vm_compute; exact I).
  assert (Hcov : (1, 1) ∈ raster (SK := box_skimage)
                   (current_polygon drawing_square) (4, 5))
    by (apply (bool_decide_unpack _); vm_compute; exact I).
  split; [exact Hst | split; [exact Hlen | split; [exact Hkey | split; [exact Hcov |]]]].
  destruct (labelled_polygon_reaches_volume (SK := box_skimage)
              drawing_square 1%Z 1 1 Hst Hlen Hkey)
    as (label_array & Hslice & Hpix & _);
    [vm_compute; lia | exact Hcov | simpl; lia | simpl; lia |].
  exists label_array. split; [exact Hslice | exact Hpix].
Defined.

(** ** The 3-D review *)

Section Review.
Context {coord : Type} {SK : Skimage coord} {mesh : Type}.
Implicit Types (s : DICOMLabeler coord) (events : list (event coord))
               (marching_cubes : list (list (list Z)) → Q → option mesh).

(** [(self.slice_labels == label).astype(np.uint8)] *)
Local Abbreviation bone_mask s label :=
  (map (map (map (fun v => Z.b2z (Z.eqb v label)))) (slice_labels s)).

Lemma visualize_3d_traces_some marching_cubes s (labels : list Z) traces :
  visualize_3d_traces marching_cubes s labels = Some traces →
  Forall2 (fun label t =>
             label ≠ 0%Z ∧ label ∈ labels ∧
             trace_color t = (bone_colors_get s label ("gray", "Unknown")).1 ∧
             trace_name t
             = pretty label +:+ ": " +:+ (bone_colors_get s label ("gray", "Unknown")).2 ∧
             marching_cubes (bone_mask s label) (1 # 2)%Q = Some (trace_mesh t))
          (filter (fun label => label ≠ 0%Z) labels) traces.
Proof.
  revert traces. induction labels as [|label labels IH]; intros traces Hrun.
  - injection Hrun as <-. constructor.
  - cbn [visualize_3d_traces] in Hrun. rewrite filter_cons.
    assert (Hweaken : ∀ rest,
              visualize_3d_traces marching_cubes s labels = Some rest →
              Forall2 (fun l t =>
                         l ≠ 0%Z ∧ l ∈ label :: labels ∧
                         trace_color t = (bone_colors_get s l ("gray", "Unknown")).1 ∧
                         trace_name t
                         = pretty l +:+ ": " +:+ (bone_colors_get s l ("gray", "Unknown")).2 ∧
                         marching_cubes (bone_mask s l) (1 # 2)%Q = Some (trace_mesh t))
                      (filter (fun l => l ≠ 0%Z) labels) rest).
    { intros rest Hrest. eapply Forall2_impl; [by apply IH|].
      intros l t (Hnz & Hl & Hrest').
      split; [done|]. split; [by apply list_elem_of_further | done]. }
    destruct (Z.eqb_spec label 0) as [->|Hne].
    + rewrite decide_False by (intros Hn; by apply Hn). by apply Hweaken.
    + rewrite decide_True by done.
      destruct (marching_cubes _ _) as [surface|] eqn:Hmc; [|done].
      simpl in Hrun.
      destruct (visualize_3d_traces marching_cubes s labels) as [rest|]; [|done].
      simpl in Hrun. injection Hrun as <-.
      constructor; [|by apply Hweaken].
      split; [done|]. split; [apply list_elem_of_here|]. by rewrite Hmc.
Qed.

Lemma visualize_3d_traces_none marching_cubes s (labels : list Z) :
  visualize_3d_traces marching_cubes s labels = None ↔
  ∃ label, label ∈ labels ∧ label ≠ 0%Z ∧
           marching_cubes (bone_mask s label) (1 # 2)%Q = None.
Proof.
  induction labels as [|label labels IH]; cbn [visualize_3d_traces].
  - split; [done|]. intros (l & Hl & _). by apply elem_of_nil in Hl.
  - destruct (Z.eqb_spec label 0) as [->|Hne].
    + rewrite IH. split; intros (l & Hl & Hne & Hmc); exists l.
      * split; [by apply list_elem_of_further | done].
      * apply elem_of_cons in Hl as [->|Hl]; [done | done].
    + destruct (marching_cubes (bone_mask s label) (1 # 2)%Q) as [surface|] eqn:Hmc;
        simpl.
      * destruct (visualize_3d_traces marching_cubes s labels) as [rest|] eqn:Hrest;
          simpl.
        -- split; [done|]. intros (l & Hl & Hnz & Hnone).
           apply elem_of_cons in Hl as [->|Hl]; [congruence|].
           assert (Hex : ∃ l', l' ∈ labels ∧ l' ≠ 0%Z ∧
                     marching_cubes (bone_mask s l') (1 # 2)%Q = None) by eauto.
           apply IH in Hex. done.
        -- split; [|done]. intros _.
           destruct (proj1 IH eq_refl) as (l & Hl & Hnz & Hnone).
           exists l. split; [by apply list_elem_of_further | done].
      * split; [|done]. intros _. exists label.
        split; [apply list_elem_of_here | done].
Qed.

(** X20. [visualize_3d] changes the session exactly as encoding the active
    slice does.  On a session reached from a fresh one by UI events, when no
    surface extraction raises, the figure gets one trace per distinct
    non-zero value of the label volume, in ascending order of the value,
    each coloured and named from the registry entry of its value, so the
    fallback 'gray'/'Unknown' is never used; the call raises exactly when
    the extraction raises for one of those values. *)
Theorem visualize_3d_traces_registered (S0 H W : nat) events marching_cubes :
  0 < S0 →
  let s := exec (run events) (init (S0, (H, W))) in
  let s' := exec (visualize_3d marching_cubes) s in
  let values := filter (fun label => label ≠ 0%Z) (np_unique (concat (slice_labels s'))) in
  s' = exec save_current_slice s ∧
  StronglySorted Z.lt values ∧
  (∀ traces, result (visualize_3d marching_cubes) s = Some traces →
     Forall2 (fun label t =>
                ∃ name, (label, (trace_color t, name)) ∈ default_bone_colors ∧
                        trace_name t = pretty label +:+ ": " +:+ name ∧
                        marching_cubes (bone_mask s' label) (1 # 2)%Q
                        = Some (trace_mesh t))
             values traces) ∧
  (result (visualize_3d marching_cubes) s = None ↔
   ∃ label, label ∈ values ∧ marching_cubes (bone_mask s' label) (1 # 2)%Q = None).
Proof.
  intros HS s s' values. subst values s'.
  assert (Hexec : exec (visualize_3d marching_cubes) s = exec save_current_slice s)
    by reflexivity.
  rewrite Hexec.
  assert (Hres : result (visualize_3d marching_cubes) s
                 = visualize_3d_traces marching_cubes (exec save_current_slice s)
                     (np_unique (concat (slice_labels (exec save_current_slice s)))))
    by reflexivity.
  rewrite Hres.
  split; [done|]. split; [apply filter_sorted, np_unique_sorted|].
  pose proof (session_invariant_save_current_slice s
                (session_invariant_run S0 H W events HS)) as (_ & _ & (_ & Hvals) & _).
  destruct (registry_and_shape_run events (init (S0, (H, W)))) as [Hreg _].
  fold s in Hreg.
  assert (Hreg' : bone_colors (exec save_current_slice s) = default_bone_colors)
    by (rewrite exec_save_current_slice; exact Hreg).
  split.
  - intros traces Hrun. apply visualize_3d_traces_some in Hrun.
    eapply Forall2_impl; [exact Hrun|].
    intros label t (Hnz & Hin & Hcolor & Hname & Hmc).
    apply np_unique_elem in Hin as (row & Hrow & Hv).
    apply list_elem_of_In, in_concat in Hrow as (a & Ha & Hrow).
    eapply Forall_forall in Hvals; [|by apply list_elem_of_In].
    eapply Forall_forall in Hvals; [|by apply list_elem_of_In].
    eapply Forall_forall in Hvals; [|exact Hv].
    destruct Hvals as [->|Hkey]; [done|].
    pose proof (bone_colors_get_known _ label ("gray", "Unknown") Hkey) as Hget.
    rewrite Hreg' in Hget. rewrite Hcolor, Hname.
    destruct (bone_colors_get _ label _) as [color name]. by exists name.
  - rewrite visualize_3d_traces_none. split.
    + intros (l & Hl & Hnz & Hnone). exists l. split; [|done].
      by apply list_elem_of_filter.
    + intros (l & [Hnz Hl]%list_elem_of_filter & Hnone). by exists l.
Qed.

End Review.

Lemma visualize_3d_traces_registered_witness :
  0 < 2 ∧
  result (visualize_3d (SK := box_skimage) unit_marching_cubes)
         (exec (run (SK := box_skimage) sample_run) (init (2, (4, 5))))
  = Some [ mkTrace "red" "1: Femur" tt ] ∧
  Forall2 (fun label t => ∃ name, (label, (trace_color t, name)) ∈ default_bone_colors ∧
                                  trace_name t = pretty label +:+ ": " +:+ name)
          [ 1%Z ] [ mkTrace "red" "1: Femur" tt ].
Proof.
  assert (HS : 0 < 2) by lia.
  assert (Hres : result (visualize_3d (SK := box_skimage) unit_marching_cubes)
                   (exec (run (SK := box_skimage) sample_run) (init (2, (4, 5))))
                 = Some [ mkTrace "red" "1: Femur" tt ]) by (vm_compute; reflexivity).
  split; [exact HS | split; [exact Hres |]].
  destruct (visualize_3d_traces_registered (SK := box_skimage)
              2 4 5 sample_run unit_marching_cubes HS) as (_ & _ & Htraces & _).
  eapply Forall2_impl; [exact (Htraces _ Hres)|].
  intros label t (name & Hin & Hname & _). by exists name.
Defined.

(** ** Loading the series *)

Lemma string_compare_refl (a : string) : String.compare a a = Eq.
Proof.
  induction a as [|c a IH]; [done|]. simpl.
  unfold Ascii.compare. by rewrite N.compare_refl.
Qed.

Lemma string_compare_lt_trans (a b c : string) :
  String.compare a b = Lt → String.compare b c = Lt → String.compare a c = Lt.
Proof.
  revert b c. induction a as [|x a IH]; intros [|y b] [|z c]; simpl; try done.
  unfold Ascii.compare.
  destruct (N.compare_spec (N_of_ascii x) (N_of_ascii y)) as [Hxy|Hxy|Hxy];
    destruct (N.compare_spec (N_of_ascii y) (N_of_ascii z)) as [Hyz|Hyz|Hyz];
    try done; intros Hab Hbc.
  - rewrite Hxy, Hyz, N.compare_refl. by eapply IH.
  - rewrite Hxy. by rewrite (proj2 (N.compare_lt_iff _ _) Hyz).
  - rewrite <- Hyz. by rewrite (proj2 (N.compare_lt_iff _ _) Hxy).
  - by rewrite (proj2 (N.compare_lt_iff _ _) (N.lt_trans _ _ _ Hxy Hyz)).
Qed.

Lemma filename_le_cases (a b : string) :
  filename_le a b ↔ a = b ∨ String.compare a b = Lt.
Proof.
  unfold filename_le, String.leb. split.
  - destruct (String.compare a b) eqn:Hc; [|by right|done].
    left. by apply String.compare_eq_iff.
  - intros [-> | ->]; [by rewrite string_compare_refl | done].
Qed.

#[export] Instance filename_le_trans : Transitive filename_le.
Proof.
  intros a b c [->|Hab]%filename_le_cases [->|Hbc]%filename_le_cases;
    apply filename_le_cases; auto.
  right. by eapply string_compare_lt_trans.
Qed.

#[export] Instance filename_le_total : Total filename_le.
Proof. intros a b. apply String.leb_total. Qed.

#[export] Instance filename_le_antisym : AntiSymm eq filename_le.
Proof. intros a b. apply String.leb_antisym. Qed.

Lemma StronglySorted_filter_gen {A} (R : relation A) (P : A → Prop)
    `{!∀ x, Decision (P x)} (l : list A) :
  StronglySorted R l → StronglySorted R (filter P l).
Proof.
  induction 1 as [|x l Hl IH Hx]; [constructor|].
  rewrite filter_cons. case_decide; [|done].
  constructor; [done|].
  apply Forall_forall. intros y [_ Hy]%list_elem_of_filter.
  by eapply Forall_forall in Hx.
Qed.

Lemma sorted_filenames_perm (l1 l2 : list string) :
  l1 ≡ₚ l2 → merge_sort filename_le l1 = merge_sort filename_le l2.
Proof.
  intros Hperm. apply (Sorted_unique filename_le); try apply _.
  - apply Sorted_merge_sort, _.
  - apply Sorted_merge_sort, _.
  - by rewrite !merge_sort_Permutation.
Qed.

Lemma sorted_filenames_filter (P : string → Prop) `{!∀ x, Decision (P x)}
    (l : list string) :
  filter P (merge_sort filename_le l) = merge_sort filename_le (filter P l).
Proof.
  apply (Sorted_unique filename_le); try apply _.
  - apply StronglySorted_Sorted, StronglySorted_filter_gen.
    apply StronglySorted_merge_sort; apply _.
  - apply Sorted_merge_sort, _.
  - by rewrite !merge_sort_Permutation.
Qed.

Section Loading.
Context {image : Type} (shape_of : image → list nat) (dcmread : string → option image).
Implicit Types (listdir : list string).

(** X21. The loaded series does not depend on the order in which the folder
    is listed, and files whose name does not end in '.dcm' play no part:
    the result is the same with them absent. *)
Theorem load_dicom_series_listing_irrelevant listdir listdir' :
  listdir ≡ₚ listdir' →
  load_dicom_series shape_of dcmread listdir
  = load_dicom_series shape_of dcmread listdir' ∧
  load_dicom_series shape_of dcmread listdir
  = load_dicom_series shape_of dcmread
      (filter (fun filename => endswith filename ".dcm" = true) listdir).
Proof.
  intros Hperm. unfold load_dicom_series. split.
  - by rewrite (sorted_filenames_perm listdir listdir').
  - set (P := fun filename : string => endswith filename ".dcm" = true).
    assert (Hidem : ∀ l : list string, filter P (filter P l) = filter P l).
    { intros l. induction l as [|x l IH]; [done|].
      rewrite filter_cons. case_decide; [|done].
      by rewrite filter_cons_True, IH. }
    assert (Hsame : filter P (merge_sort filename_le (filter P listdir))
                    = filter P (merge_sort filename_le listdir)).
    { rewrite (sorted_filenames_filter P (filter P listdir)), Hidem.
      by rewrite sorted_filenames_filter. }
    by rewrite Hsame.
Qed.

End Loading.

Lemma np_stack_some {image : Type} (shape_of : image → list nat)
    (slices stacked : list image) :
  np_stack shape_of slices = Some stacked →
  stacked = slices ∧ 0 < length slices ∧
  ∀ a b, a ∈ slices → b ∈ slices → shape_of a = shape_of b.
Proof.
  unfold np_stack. destruct slices as [|first rest]; [done|].
  destruct (forallb _ rest) eqn:Hall; [|done]. intros [= <-].
  split; [done|]. split; [simpl; lia|].
  assert (Hfirst : ∀ a, a ∈ first :: rest → shape_of a = shape_of first).
  { intros a [->|Ha]%elem_of_cons; [done|].
    rewrite forallb_forall in Hall.
    apply list_elem_of_In, Hall in Ha. by apply bool_decide_eq_true in Ha. }
  intros a b Ha Hb. by rewrite (Hfirst a Ha), (Hfirst b Hb).
Qed.

Section LoadingResult.
Context {image : Type} (shape_of : image → list nat) (dcmread : string → option image).
Implicit Types (listdir : list string).

(** X22. A folder with no file ending in '.dcm' cannot be loaded
    ([np.stack] raises on the empty list).  When loading succeeds there is
    at least one slice, the slices are the images of exactly the '.dcm'
    files of the folder, taken in ascending order of file name, and they
    all have the same shape. *)
Theorem load_dicom_series_result listdir :
  ((∀ filename, filename ∈ listdir → endswith filename ".dcm" = false) →
   load_dicom_series shape_of dcmread listdir = None) ∧
  (∀ slices, load_dicom_series shape_of dcmread listdir = Some slices →
     ∃ names,
       StronglySorted filename_le names ∧
       (∀ filename, filename ∈ names ↔
                    filename ∈ listdir ∧ endswith filename ".dcm" = true) ∧
       Forall2 (fun filename a => dcmread filename = Some a) names slices ∧
       0 < length slices ∧
       (∀ a b, a ∈ slices → b ∈ slices → shape_of a = shape_of b)).
Proof.
  unfold load_dicom_series. split.
  - intros Hnone.
    assert (Hnil : ∀ l : list string,
              (∀ filename, filename ∈ l → endswith filename ".dcm" = false) →
              filter (fun filename => endswith filename ".dcm" = true) l = []).
    { intros l Hl. induction l as [|x l IH]; [done|].
      rewrite filter_cons_False
        by (rewrite (Hl x (list_elem_of_here _ _)); discriminate).
      apply IH. intros filename Hin. by apply Hl, list_elem_of_further. }
    rewrite Hnil; [done|].
    intros filename Hin. rewrite merge_sort_Permutation in Hin. by apply Hnone.
  - intros slices Hload.
    destruct (mapM dcmread _) as [read|] eqn:Hread; [|done]. simpl in Hload.
    apply np_stack_some in Hload as (-> & Hlen & Hshape).
    exists (filter (fun filename => endswith filename ".dcm" = true)
                   (merge_sort filename_le listdir)).
    split; [|split; [|split; [|split]]].
    + apply StronglySorted_filter_gen, StronglySorted_merge_sort; apply _.
    + intros filename. rewrite list_elem_of_filter, merge_sort_Permutation. tauto.
    + by apply mapM_Some_1.
    + done.
    + done.
Qed.

End LoadingResult.

Lemma load_dicom_series_listing_irrelevant_witness :
  sample_listdir ≡ₚ [ "a.dcm"; "b.dcm"; "notes.txt" ] ∧
  load_dicom_series shape_4_5 name_as_image sample_listdir
  = load_dicom_series shape_4_5 name_as_image [ "a.dcm"; "b.dcm"; "notes.txt" ].
Proof.
  assert (Hperm : sample_listdir ≡ₚ [ "a.dcm"; "b.dcm"; "notes.txt" ]).
  { unfold sample_listdir.
    apply (Permutation_cons_app [ "a.dcm" ] [ "notes.txt" ] "b.dcm").
    apply Permutation_swap. }
  split; [exact Hperm|].
  exact (proj1 (load_dicom_series_listing_irrelevant shape_4_5 name_as_image _ _ Hperm)).
Defined.

Lemma load_dicom_series_result_witness :
  (∀ filename, filename ∈ [ "notes.txt" ] → endswith filename ".dcm" = false) ∧
  load_dicom_series shape_4_5 name_as_image [ "notes.txt" ] = None ∧
  load_dicom_series shape_4_5 name_as_image sample_listdir = Some [ "a.dcm"; "b.dcm" ] ∧
  0 < length [ "a.dcm"; "b.dcm" ].
Proof.
  assert (Hnone : ∀ filename, filename ∈ [ "notes.txt" ] →
                              endswith filename ".dcm" = false)
    by (intros filename ->%list_elem_of_singleton; reflexivity).
  assert (Hload : load_dicom_series shape_4_5 name_as_image sample_listdir
                  = Some [ "a.dcm"; "b.dcm" ]) by (vm_compute; reflexivity).
  destruct (load_dicom_series_result shape_4_5 name_as_image [ "notes.txt" ])
    as [Hempty _].
  destruct (load_dicom_series_result shape_4_5 name_as_image sample_listdir)
    as [_ Hsome].
  destruct (Hsome _ Hload) as (names & _ & _ & _ & Hlen & _).
  split; [exact Hnone | split; [exact (Hempty Hnone) | split; [exact Hload | exact Hlen]]].
Defined.

(** ** Repeated navigation *)

Section Clamping.
Context {coord : Type} {SK : Skimage coord}.
Implicit Types (s : DICOMLabeler coord).

Lemma next_slice_index s :
  current_slice (exec next_slice s)
  = (if current_slice s <? (data_shape s).1 - 1
     then current_slice s + 1 else current_slice s) ∧
  data_shape (exec next_slice s) = data_shape s.
Proof.
  rewrite exec_next_slice_cases.
  by destruct (current_slice s <? (data_shape s).1 - 1).
Qed.

Lemma prev_slice_index s :
  current_slice (exec prev_slice s) = current_slice s - 1 ∧
  data_shape (exec prev_slice s) = data_shape s.
Proof.
  rewrite exec_prev_slice_cases.
  destruct (Nat.ltb_spec 0 (current_slice s)); [done|]. split; [lia | done].
Qed.

(** X24. The slice index is clamped to the series: from a slice of the
    series, [n] presses of Next lead to slice [current_slice + n] or to the
    last slice, whichever comes first, and [n] presses of Previous to slice
    [current_slice - n] or to slice 0. *)
Theorem repeated_navigation_clamps s (n : nat) :
  current_slice s < (data_shape s).1 →
  current_slice (exec (run (replicate n NextButton)) s)
  = Nat.min (current_slice s + n) ((data_shape s).1 - 1) ∧
  current_slice (exec (run (replicate n PrevButton)) s) = current_slice s - n.
Proof.
  intros Hcur. split.
  - revert s Hcur. induction n as [|n IH]; intros s Hcur.
    + simpl. unfold run, exec. simpl. lia.
    + cbn [replicate]. rewrite exec_run_cons. simpl handle.
      destruct (next_slice_index s) as [Hi Hshape].
      rewrite IH; rewrite Hi, Hshape;
        destruct (Nat.ltb_spec (current_slice s) ((data_shape s).1 - 1)); lia.
  - revert s Hcur. induction n as [|n IH]; intros s Hcur.
    + simpl. unfold run, exec. simpl. lia.
    + cbn [replicate]. rewrite exec_run_cons. simpl handle.
      destruct (prev_slice_index s) as [Hi Hshape].
      rewrite IH; rewrite Hi, ?Hshape; lia.
Qed.

End Clamping.

Lemma repeated_navigation_clamps_witness :
  current_slice two_slices < (data_shape two_slices).1 ∧
  current_slice (exec (run (SK := box_skimage) (replicate 5 NextButton)) two_slices) = 1.
Proof.
  assert (Hcur : current_slice two_slices < (data_shape two_slices).1)
    by (vm_compute; lia).
  split; [exact Hcur|].
  exact (proj1 (repeated_navigation_clamps (SK := box_skimage) two_slices 5 Hcur)).
Defined.
